(** * mt5status: closed-position analytics of an MT5 deal feed

    A shallow embedding of [mt5_trade_analysis.py] (the record normalizer,
    the position matcher, the slippage classifier, the equity/drawdown
    recurrence and the aggregator) and of the two entry points that call it
    ([main] and [mt5_api_server.run_analysis]), followed by the properties
    proved about them.

    Conventions of the embedding.
    - A pandas DataFrame is the list of its rows, in row order.
    - float64 amounts (prices, volumes, profits) are exact rationals [Q];
      rounding, overflow and underflow are not modelled, and no statement
      below rests on an exact identity or a strict bound between values that
      the program computes with rounding.  The special values that numpy
      produces on a zero divisor (inf, -inf, nan) and the sign of a zero
      result are modelled, see [npfloat]; a zero among the values of the feed
      and their sums is +0.0.
    - The printing, the formatting of the report and the writing of the
      files (JSON, workbooks, CSV) are not modelled: what is stated about
      [save_daily_trades], [analyze_trades_by_day], [main] and [run_analysis]
      is about what they compute and return, and about the exceptions of the
      modelled part (the unpacking, the divisions), not about exceptions of
      the file system.
    - Timestamps are epoch seconds in [Z]; a calendar date is the day number
      [time / 86400].
    - Python exceptions are values of [exn], carried by [result]. *)

From Stdlib Require Import QArith Qabs Lqa.
From stdpp Require Import gmap strings list sorting.

(** ** Numbers *)

Definition Qgtb (x y : Q) : bool :=
  match (x ?= y)%Q with Gt => true | _ => false end.

Definition Qgeb (x y : Q) : bool :=
  match (x ?= y)%Q with Lt => false | _ => true end.

(** [x != 0] on floats. *)
Definition Qnonzero (x : Q) : bool := negb (Qeq_bool x 0).

(** [Series.sum()]: the sum of a column, 0 on the empty column. *)
Definition Qsum (l : list Q) : Q := foldr Qplus 0%Q l.

(** A numpy float64: a finite value, the negative zero, or one of the other
    IEEE special values.  [Fin q] with [q == 0] is +0.0. *)
Inductive npfloat : Type :=
  | Fin (q : Q)
  | NZero
  | PInf
  | NInf
  | NaN.

(** Equality of floats up to the representation of the rational. *)
Definition np_eq (a b : npfloat) : Prop :=
  match a, b with
  | Fin x, Fin y => (x == y)%Q
  | NZero, NZero | PInf, PInf | NInf, NInf | NaN, NaN => True
  | _, _ => False
  end.

(** [a - b]: a difference that is zero is +0.0, except (-0.0) - (+0.0). *)
Definition np_sub (a b : npfloat) : npfloat :=
  match a, b with
  | NaN, _ | _, NaN => NaN
  | Fin x, Fin y => Fin (x - y)
  | Fin x, NZero => Fin x
  | NZero, Fin y => if Qeq_bool y 0 then NZero else Fin (0 - y)
  | NZero, NZero => Fin 0
  | (Fin _ | NZero), PInf => NInf
  | (Fin _ | NZero), NInf => PInf
  | PInf, PInf => NaN
  | PInf, _ => PInf
  | NInf, NInf => NaN
  | NInf, _ => NInf
  end.

(** [a * b]: the sign of a zero product is the product of the signs; zero
    times an infinity is nan. *)
Definition np_mul (a b : npfloat) : npfloat :=
  match a, b with
  | NaN, _ | _, NaN => NaN
  | Fin x, Fin y =>
      if (Qgtb 0 x && Qeq_bool y 0) || (Qeq_bool x 0 && Qgtb 0 y)
      then NZero else Fin (x * y)
  | Fin x, NZero | NZero, Fin x => if Qgtb 0 x then Fin 0 else NZero
  | NZero, NZero => Fin 0
  | Fin x, PInf | PInf, Fin x =>
      match (x ?= 0)%Q with Eq => NaN | Gt => PInf | Lt => NInf end
  | Fin x, NInf | NInf, Fin x =>
      match (x ?= 0)%Q with Eq => NaN | Gt => NInf | Lt => PInf end
  | NZero, (PInf | NInf) | (PInf | NInf), NZero => NaN
  | PInf, PInf | NInf, NInf => PInf
  | PInf, NInf | NInf, PInf => NInf
  end.

(** float64 division: a zero divisor yields inf, -inf or nan (numpy warns and
    goes on, it does not raise); the sign of the result is the product of the
    signs, also for a zero or an infinite result. *)
Definition np_div (a b : npfloat) : npfloat :=
  match a, b with
  | NaN, _ | _, NaN => NaN
  | Fin x, Fin y =>
      if Qeq_bool y 0
      then match (x ?= 0)%Q with Eq => NaN | Gt => PInf | Lt => NInf end
      else if Qeq_bool x 0 && Qgtb 0 y then NZero else Fin (x / y)
  | Fin x, NZero =>
      match (x ?= 0)%Q with Eq => NaN | Gt => NInf | Lt => PInf end
  | NZero, Fin y =>
      match (y ?= 0)%Q with Eq => NaN | Gt => NZero | Lt => Fin 0 end
  | NZero, NZero => NaN
  | Fin x, PInf => if Qgtb 0 x then NZero else Fin 0
  | Fin x, NInf => if Qgtb 0 x then Fin 0 else NZero
  | NZero, PInf => NZero
  | NZero, NInf => Fin 0
  | PInf, Fin y => if Qgeb y 0 then PInf else NInf
  | NInf, Fin y => if Qgeb y 0 then NInf else PInf
  | PInf, NZero => NInf
  | NInf, NZero => PInf
  | (PInf | NInf), (PInf | NInf) => NaN
  end.

(** [a > b] on floats; every comparison with nan is false, and -0.0 compares
    as 0. *)
Definition np_gtb (a b : npfloat) : bool :=
  match a, b with
  | NaN, _ | _, NaN => false
  | Fin x, Fin y => Qgtb x y
  | Fin x, NZero => Qgtb x 0
  | NZero, Fin y => Qgtb 0 y
  | NZero, NZero => false
  | (Fin _ | NZero), NInf => true
  | (Fin _ | NZero), PInf => false
  | PInf, PInf => false
  | PInf, _ => true
  | NInf, _ => false
  end.

(** Python's builtin [max(a, b)]: the first argument unless the second one
    compares greater. *)
Definition py_max (a b : npfloat) : npfloat := if np_gtb b a then b else a.

(** ** Exceptions *)

Inductive exn : Type :=
  | TypeError (msg : string)
  | ZeroDivisionError (msg : string).

Definition exn_str (e : exn) : string :=
  match e with TypeError m | ZeroDivisionError m => m end.

Inductive result (A : Type) : Type :=
  | Ok (a : A)
  | Raise (e : exn).
Arguments Ok {A} a.
Arguments Raise {A} e.

#[global] Instance result_ret : MRet result := λ A a, Ok a.
#[global] Instance result_bind : MBind result := λ A B k r,
  match r with Ok a => k a | Raise e => Raise e end.

(** Python's [a / b] on two ints. *)
Definition py_truediv (a b : Z) : result Q :=
  if decide (b = 0%Z) then Raise (ZeroDivisionError "division by zero")
  else Ok (inject_Z a / inject_Z b)%Q.

(** Unpacking a pair out of a function result that may be [None]. *)
Definition py_unpack2 {A B} (v : option (A * B)) : result (A * B) :=
  match v with
  | Some p => Ok p
  | None => Raise (TypeError "cannot unpack non-iterable NoneType object")
  end.

(** ** Records of the feed *)

(** Constants of the MetaTrader5 package. *)
Definition DEAL_ENTRY_IN : Z := 0.
Definition DEAL_ENTRY_OUT : Z := 1.
Definition DEAL_TYPE_BUY : Z := 0.
Definition DEAL_TYPE_SELL : Z := 1.
Definition DEAL_TYPE_BALANCE : Z := 2.
Definition DEAL_TYPE_CREDIT : Z := 3.

(** A deal of [history_deals_get], with the columns the analysis reads. *)
Module Deal.
Record t : Type := mk {
    time : Z;
    type : Z;
    entry : Z;
    position_id : Z;
    volume : Q;
    price : Q;
    commission : Q;
    swap : Q;
    profit : Q;
    symbol : string
}.
End Deal.

(** An order of [history_orders_get]; [time_setup] is the time at which the
    order was placed, which the analysis does not read. *)
Module Order.
Record t : Type := mk {
    position_id : Z;
    time_setup : Z;
    sl : Q;
    tp : Q
}.
End Order.

(** A value of [orders_dict]: [{'sl': ..., 'tp': ...}]. *)
Module SlTp.
Record t : Type := mk { sl : Q; tp : Q }.
End SlTp.

(** A row of [df]: a deal with the columns [sl] and [tp] added; [None] is the
    missing value the lookup yields for a position without orders. *)
Module Trade.
Record t : Type := mk {
    deal : Deal.t;
    sl : option Q;
    tp : option Q
}.
Definition position_id (r : t) : Z := Deal.position_id (deal r).
Definition time (r : t) : Z := Deal.time (deal r).
Definition entry (r : t) : Z := Deal.entry (deal r).
End Trade.

(** ** Record normalizer and completed positions: [get_trades_history] *)

(** [Series.unique()]: the distinct values in order of first appearance. *)
Fixpoint unique_from {A} `{EqDecision A} (seen l : list A) : list A :=
  match l with
  | [] => []
  | x :: l' =>
      if decide (x ∈ seen) then unique_from seen l'
      else x :: unique_from (x :: seen) l'
  end.

Definition unique {A} `{EqDecision A} (l : list A) : list A := unique_from [] l.

(** A sort that keeps the order of the rows it does not tell apart: each row
    is put before the first row of the sorted rest that it may precede. *)
Fixpoint insert_sorted {A} (R : relation A) `{RelDecision A A R}
    (x : A) (l : list A) : list A :=
  match l with
  | [] => [x]
  | y :: l' => if decide (R x y) then x :: y :: l' else y :: insert_sorted R x l'
  end.

Definition stable_sort {A} (R : relation A) `{RelDecision A A R}
    (l : list A) : list A :=
  foldr (insert_sorted R) [] l.

(** [sort_values] / [ndarray.sort] on distinct integers, ascending. *)
Definition sort_asc (l : list Z) : list Z := merge_sort Z.le l.

(** The loop body that fills [orders_dict]. *)
Definition orders_dict_step (d : gmap Z SlTp.t) (o : Order.t) : gmap Z SlTp.t :=
  match d !! Order.position_id o with
  | None =>
      <[Order.position_id o := SlTp.mk (Order.sl o) (Order.tp o)]> d
  | Some e =>
      let e1 := if Qnonzero (Order.sl o)
                then SlTp.mk (Order.sl o) (SlTp.tp e) else e in
      let e2 := if Qnonzero (Order.tp o)
                then SlTp.mk (SlTp.sl e1) (Order.tp o) else e1 in
      <[Order.position_id o := e2]> d
  end.

Definition build_orders_dict (orders : option (list Order.t)) : gmap Z SlTp.t :=
  match orders with
  | Some os => foldl orders_dict_step ∅ os
  | None => ∅
  end.

(** [orders_dict.get(x, {}).get('sl', None)] and the same for ['tp']. *)
Definition lookup_sl (d : gmap Z SlTp.t) (pid : Z) : option Q := SlTp.sl <$> d !! pid.
Definition lookup_tp (d : gmap Z SlTp.t) (pid : Z) : option Q := SlTp.tp <$> d !! pid.

Definition attach_sl_tp (d : gmap Z SlTp.t) (x : Deal.t) : Trade.t :=
  Trade.mk x (lookup_sl d (Deal.position_id x)) (lookup_tp d (Deal.position_id x)).

(** The account history kept as [balance_df]. *)
Definition is_balance_row (x : Deal.t) : bool :=
  bool_decide (Deal.entry x = DEAL_ENTRY_IN)
  && (bool_decide (Deal.type x = DEAL_TYPE_BALANCE)
      || bool_decide (Deal.type x = DEAL_TYPE_CREDIT)).

Definition make_balance_df (account_history : option (list Deal.t)) : list Deal.t :=
  match account_history with
  | Some ah => filter (λ x, is_balance_row x = true) ah
  | None => []
  end.

(** The rows of [df] of one position. *)
Definition rows_of (pid : Z) (df : list Trade.t) : list Trade.t :=
  filter (λ r, Trade.position_id r = pid) df.

(** [df.groupby('position_id').agg({'entry': 'count', ...})]: one row per
    position id, ascending, with its number of deals. *)
Definition all_positions (df : list Trade.t) : list (Z * nat) :=
  map (λ pid, (pid, length (rows_of pid df)))
      (sort_asc (unique (map Trade.position_id df))).

Definition completed_positions (df : list Trade.t) : list Z :=
  map fst (filter (λ pc : Z * nat, 2 ≤ pc.2) (all_positions df)).

Definition keep_completed (df : list Trade.t) : list Trade.t :=
  filter (λ r, Trade.position_id r ∈ completed_positions df) df.

(** [get_trades_history]: the three arguments are what the terminal returns
    for the deals, for the account history and for the orders of the window
    ([None] where the terminal returns [None]). *)
Definition get_trades_history
    (deals account_history : option (list Deal.t))
    (orders : option (list Order.t)) : option (list Trade.t * list Deal.t) :=
  match deals with
  | None => None
  | Some ds =>
      let balance_df := make_balance_df account_history in
      let orders_dict := build_orders_dict orders in
      let df := keep_completed (map (attach_sl_tp orders_dict) ds) in
      if decide (length df = 0) then None else Some (df, balance_df)
  end.

(** ** Position matcher and slippage classifier: [calculate_position_times] *)

(** The values ['sl'], ['tp'] and ['market'] of [close_type]. *)
Inductive close_kind : Type := by_sl | by_tp | by_market.

(** A row of [position_times]. *)
Module Position.
Record t : Type := mk {
    position_id : Z;
    open_time : Z;
    close_time : Z;
    symbol : string;
    volume : Q;
    type : Z;
    open_price : Q;
    close_price : Q;
    sl : option Q;
    tp : option Q;
    sl_tp_price : option Q;
    slippage : Q;
    close_type : close_kind;
    profit : Q;
    commission : Q;
    swap : Q;
    holding_time : Z;
    date : Z;
    total_profit : Q;
    is_profit : bool;
    price_change : Q
}.
End Position.

(** [sort_values('time')] on the rows of a position; rows of equal time keep
    their row order, as they do on the short column of one position. *)
Definition time_le (a b : Trade.t) : Prop := (Trade.time a ≤ Trade.time b)%Z.

#[global] Instance time_le_dec : RelDecision time_le.
Proof. intros a b. unfold time_le. apply _. Defined.

Definition sort_values_time (rows : list Trade.t) : list Trade.t :=
  stable_sort time_le rows.

(** [Series.min()] and [Series.max()] of a time column; [None] is the missing
    value NaT of an empty column. *)
Definition series_min (l : list Z) : option Z :=
  match l with [] => None | x :: l' => Some (foldr Z.min x l') end.

Definition series_max (l : list Z) : option Z :=
  match l with [] => None | x :: l' => Some (foldr Z.max x l') end.

(** [float(v) if pd.notna(v) and v != 0 else None]. *)
Definition notna_nonzero (v : option Q) : option Q :=
  match v with
  | Some x => if Qnonzero x then Some x else None
  | None => None
  end.

(** The if/elif/else on the close record: reference price, close type and
    slippage. *)
Definition classify_close (close_trade : Trade.t) : option Q * close_kind * Q :=
  let price := Deal.price (Trade.deal close_trade) in
  match notna_nonzero (Trade.sl close_trade) with
  | Some s => (Some s, by_sl, Qabs (price - s))
  | None =>
      match notna_nonzero (Trade.tp close_trade) with
      | Some t => (Some t, by_tp, Qabs (price - t))
      | None => (None, by_market, 0%Q)
      end
  end.

(** The calendar day of a timestamp ([.dt.date]). *)
Definition date_of (time : Z) : Z := (time / 86400)%Z.

(** One iteration of the loop over [df['position_id'].unique()]: [None] when
    the position is skipped by [continue].  The last [None] case stands for
    the missing min/max of an empty group, which the guard excludes. *)
Definition position_row (df : list Trade.t) (pid : Z) : option Position.t :=
  let position_trades := sort_values_time (rows_of pid df) in
  let open_trades := filter (λ r, Trade.entry r = DEAL_ENTRY_IN) position_trades in
  let close_trades := filter (λ r, Trade.entry r = DEAL_ENTRY_OUT) position_trades in
  match head open_trades, last close_trades with
  | Some open_trade, Some close_trade =>
      let '(sl_tp_price, close_type, slippage) := classify_close close_trade in
      let times := map Trade.time position_trades in
      match series_min times, series_max times with
      | Some open_time, Some close_time =>
          let open_price := Deal.price (Trade.deal open_trade) in
          let close_price := Deal.price (Trade.deal close_trade) in
          let profit := Qsum (map (λ r, Deal.profit (Trade.deal r)) position_trades) in
          let commission := Qsum (map (λ r, Deal.commission (Trade.deal r)) position_trades) in
          let swap := Qsum (map (λ r, Deal.swap (Trade.deal r)) position_trades) in
          Some {|
            Position.position_id := pid;
            Position.open_time := open_time;
            Position.close_time := close_time;
            Position.symbol := Deal.symbol (Trade.deal open_trade);
            Position.volume := Deal.volume (Trade.deal open_trade);
            Position.type := Deal.type (Trade.deal open_trade);
            Position.open_price := open_price;
            Position.close_price := close_price;
            Position.sl := notna_nonzero (Trade.sl close_trade);
            Position.tp := notna_nonzero (Trade.tp close_trade);
            Position.sl_tp_price := sl_tp_price;
            Position.slippage := slippage;
            Position.close_type := close_type;
            Position.profit := profit;
            Position.commission := commission;
            Position.swap := swap;
            Position.holding_time := (close_time - open_time)%Z;
            Position.date := date_of close_time;
            Position.total_profit := (profit + commission + swap)%Q;
            Position.is_profit := Qgtb profit 0;
            Position.price_change := Qabs (close_price - open_price)
          |}
      | _, _ => None
      end
  | _, _ => None
  end.

Definition calculate_position_times (df : list Trade.t) : list Position.t :=
  omap (position_row df) (unique (map Trade.position_id df)).

(** ** Equity and drawdown recurrence *)

Definition initial_equity : Q := 10000.

(** [position_times.sort_values('close_time')]. *)
Definition close_time_le (a b : Position.t) : Prop :=
  (Position.close_time a ≤ Position.close_time b)%Z.

#[global] Instance close_time_le_dec : RelDecision close_time_le.
Proof. intros a b. unfold close_time_le. apply _. Defined.

Definition sort_values_close_time (pts : list Position.t) : list Position.t :=
  stable_sort close_time_le pts.

(** The column [date] of [balance_df]. *)
Definition balance_date (x : Deal.t) : Z := date_of (Deal.time x).

(** The dates of the trades and of the balance records, distinct, ascending. *)
Definition all_dates (position_times_sorted : list Position.t)
    (balance_df : list Deal.t) : list Z :=
  sort_asc (unique (unique (map Position.date position_times_sorted)
                    ++ (if decide (balance_df = []) then []
                        else unique (map balance_date balance_df)))).

Definition daily_trades (position_times_sorted : list Position.t) (date : Z)
    : list Position.t :=
  filter (λ p, Position.date p = date) position_times_sorted.

Definition daily_balance (balance_df : list Deal.t) (date : Z) : list Deal.t :=
  if decide (balance_df = []) then []
  else filter (λ x, balance_date x = date) balance_df.

Definition daily_balance_change (balance_df : list Deal.t) (date : Z) : Q :=
  let rows := daily_balance balance_df date in
  if decide (rows = []) then 0%Q else Qsum (map Deal.profit rows).

Definition daily_trading_profit (position_times_sorted : list Position.t)
    (date : Z) : Q :=
  let rows := daily_trades position_times_sorted date in
  if decide (rows = []) then 0%Q else Qsum (map Position.total_profit rows).

(** The variables the loop of [analyze_trades_by_day] carries; [drawdown] is
    the value computed in the last iteration. *)
Module Equity.
Record t : Type := mk {
  current_equity : Q;
  max_equity : npfloat;
  drawdown : npfloat;
  max_drawdown : npfloat
}.
End Equity.

(** The baseline update (the if/else on [daily_balance_change]). *)
Definition update_max_equity (max_equity : npfloat) (current_equity : Q)
    (daily_balance_change : Q) : npfloat :=
  if Qgeb daily_balance_change 0
  then py_max max_equity (Fin (current_equity - daily_balance_change))
  else py_max
         (np_mul max_equity
            (np_div (Fin current_equity)
                    (Fin (current_equity - daily_balance_change))))
         (Fin current_equity).

Definition drawdown_of (max_equity : npfloat) (current_equity : Q) : npfloat :=
  np_mul (np_div (np_sub max_equity (Fin current_equity)) max_equity) (Fin 100).

(** The loop body, from the day's balance change and trading profit. *)
Definition equity_update (st : Equity.t) (daily_balance_change daily_trading_profit : Q)
    : Equity.t :=
  let current_equity :=
    (Equity.current_equity st + (daily_balance_change + daily_trading_profit))%Q in
  let max_equity :=
    update_max_equity (Equity.max_equity st) current_equity daily_balance_change in
  let drawdown := drawdown_of max_equity current_equity in
  {| Equity.current_equity := current_equity;
     Equity.max_equity := max_equity;
     Equity.drawdown := drawdown;
     Equity.max_drawdown := py_max (Equity.max_drawdown st) drawdown |}.

Definition equity_step (position_times_sorted : list Position.t)
    (balance_df : list Deal.t) (st : Equity.t) (date : Z) : Equity.t :=
  equity_update st (daily_balance_change balance_df date)
                   (daily_trading_profit position_times_sorted date).

Definition equity_init : Equity.t :=
  {| Equity.current_equity := initial_equity;
     Equity.max_equity := Fin initial_equity;
     Equity.drawdown := Fin 0;
     Equity.max_drawdown := Fin 0 |}.

(** The states after each iteration of the loop over the dates. *)
Fixpoint equity_run (position_times_sorted : list Position.t)
    (balance_df : list Deal.t) (st : Equity.t) (dates : list Z) : list Equity.t :=
  match dates with
  | [] => []
  | date :: dates' =>
      let st' := equity_step position_times_sorted balance_df st date in
      st' :: equity_run position_times_sorted balance_df st' dates'
  end.

(** The equity part of [analyze_trades_by_day]: the state after each day. *)
Definition drawdown_states (position_times : list Position.t)
    (balance_df : list Deal.t) : list Equity.t :=
  let position_times_sorted := sort_values_close_time position_times in
  equity_run position_times_sorted balance_df equity_init
             (all_dates position_times_sorted balance_df).

(** What the equity statistics print: final equity, total return, maximum
    drawdown. *)
Definition equity_summary (position_times : list Position.t)
    (balance_df : list Deal.t) : Q * Q * npfloat :=
  let final := List.last (drawdown_states position_times balance_df) equity_init in
  let final_equity := Equity.current_equity final in
  (final_equity, ((final_equity / initial_equity - 1) * 100)%Q,
   Equity.max_drawdown final).

(** ** The equity rows of [save_daily_trades] *)

(** A record of [equity_data]; the division by the constant initial equity
    is exact. *)
Module EquityRow.
Record t : Type := mk {
  date : Z;
  trading_profit : Q;
  balance_change : Q;
  equity : Q;
  equity_ratio : Q
}.
End EquityRow.

Fixpoint equity_rows (position_times_sorted : list Position.t)
    (balance_df : list Deal.t) (current_equity : Q) (dates : list Z)
    : list EquityRow.t :=
  match dates with
  | [] => []
  | date :: dates' =>
      let daily_balance_change := daily_balance_change balance_df date in
      let daily_trading_profit := daily_trading_profit position_times_sorted date in
      let current_equity :=
        (current_equity + (daily_balance_change + daily_trading_profit))%Q in
      {| EquityRow.date := date;
         EquityRow.trading_profit := daily_trading_profit;
         EquityRow.balance_change := daily_balance_change;
         EquityRow.equity := current_equity;
         EquityRow.equity_ratio := ((current_equity / initial_equity - 1) * 100)%Q |}
      :: equity_rows position_times_sorted balance_df current_equity dates'
  end.

Definition equity_df (position_times : list Position.t)
    (balance_df : list Deal.t) : list EquityRow.t :=
  let position_times_sorted := sort_values_close_time position_times in
  equity_rows position_times_sorted balance_df initial_equity
              (all_dates position_times_sorted balance_df).

(** ** Aggregator *)

(** [Series.mean()]: nan on the empty column. *)
Definition series_mean (l : list Q) : npfloat :=
  np_div (Fin (Qsum l)) (Fin (inject_Z (Z.of_nat (length l)))).

Definition profit_trades (group : list Position.t) : list Position.t :=
  filter (λ p, Position.is_profit p = true) group.

Definition loss_trades (group : list Position.t) : list Position.t :=
  filter (λ p, Position.is_profit p ≠ true) group.

(** [len(profit_trades) / len(group) * 100 if len(group) > 0 else 0]. *)
Definition win_rate_of (group : list Position.t) : result Q :=
  if decide (0 < length group) then
    r ← py_truediv (Z.of_nat (length (profit_trades group)))
                   (Z.of_nat (length group));
    mret (r * 100)%Q
  else mret 0%Q.

(** [trades['price_change'].mean() if len(trades) > 0 else 0]. *)
Definition avg_points (trades : list Position.t) : npfloat :=
  if decide (0 < length trades)
  then series_mean (map Position.price_change trades)
  else Fin 0.

(** [avg_profit / avg_loss if avg_loss > 0 else 0]. *)
Definition ratio_of (avg_profit avg_loss : npfloat) : npfloat :=
  if np_gtb avg_loss (Fin 0) then np_div avg_profit avg_loss else Fin 0.

Definition count_type (ty : Z) (group : list Position.t) : nat :=
  length (filter (λ p, Position.type p = ty) group).

(** A record of [daily_stats] in [analyze_trades_by_day], one per
    (date, symbol).  The maxima, minima and holding-time means of the source
    record, which no property below reads, are left out. *)
Module Stats.
Record t : Type := mk {
  date : Z;
  symbol : string;
  total_volume : Q;
  total_profit : Q;
  pure_profit : Q;
  commission : Q;
  swap : Q;
  buy_count : nat;
  sell_count : nat;
  win_rate : Q;
  avg_profit_points : npfloat;
  avg_loss_points : npfloat;
  profit_loss_ratio : npfloat
}.
End Stats.

Definition symbol_stats (key : Z * string) (group : list Position.t)
    : result Stats.t :=
  win_rate ← win_rate_of group;
  let avg_profit_points := avg_points (profit_trades group) in
  let avg_loss_points := avg_points (loss_trades group) in
  mret {|
    Stats.date := key.1;
    Stats.symbol := key.2;
    Stats.total_volume := Qsum (map Position.volume group);
    Stats.total_profit := Qsum (map Position.total_profit group);
    Stats.pure_profit := Qsum (map Position.profit group);
    Stats.commission := Qsum (map Position.commission group);
    Stats.swap := Qsum (map Position.swap group);
    Stats.buy_count := count_type DEAL_TYPE_BUY group;
    Stats.sell_count := count_type DEAL_TYPE_SELL group;
    Stats.win_rate := win_rate;
    Stats.avg_profit_points := avg_profit_points;
    Stats.avg_loss_points := avg_loss_points;
    Stats.profit_loss_ratio := ratio_of avg_profit_points avg_loss_points
  |}.

(** [summary_data] of [save_daily_trades], one per date, with the same
    omissions. *)
Module Summary.
Record t : Type := mk {
  date : Z;
  total_trades : nat;
  profit_count : nat;
  loss_count : nat;
  win_rate : Q;
  profit_loss_ratio : npfloat;
  avg_profit_points : npfloat;
  avg_loss_points : npfloat;
  total_volume : Q;
  total_profit : Q;
  total_commission : Q;
  total_swap : Q;
  buy_count : nat;
  sell_count : nat
}.
End Summary.

Definition day_summary (date : Z) (group : list Position.t) : result Summary.t :=
  let avg_profit_points := avg_points (profit_trades group) in
  let avg_loss_points := avg_points (loss_trades group) in
  let profit_loss_ratio := ratio_of avg_profit_points avg_loss_points in
  win_rate ← win_rate_of group;
  mret {|
    Summary.date := date;
    Summary.total_trades := length group;
    Summary.profit_count := length (profit_trades group);
    Summary.loss_count := length (loss_trades group);
    Summary.win_rate := win_rate;
    Summary.profit_loss_ratio := profit_loss_ratio;
    Summary.avg_profit_points := avg_profit_points;
    Summary.avg_loss_points := avg_loss_points;
    Summary.total_volume := Qsum (map Position.volume group);
    Summary.total_profit := Qsum (map Position.total_profit group);
    Summary.total_commission := Qsum (map Position.commission group);
    Summary.total_swap := Qsum (map Position.swap group);
    Summary.buy_count := count_type DEAL_TYPE_BUY group;
    Summary.sell_count := count_type DEAL_TYPE_SELL group
  |}.

(** [groupby]: one group per distinct key, keys ascending, rows in row
    order. *)
Definition groupby {K} `{EqDecision K} (le : relation K) `{RelDecision K K le}
    (key : Position.t → K) (rows : list Position.t)
    : list (K * list Position.t) :=
  map (λ k, (k, filter (λ p, key p = k) rows))
      (merge_sort le (unique (map key rows))).

Definition date_symbol_le (a b : Z * string) : Prop :=
  (a.1 < b.1)%Z ∨ (a.1 = b.1 ∧ String.leb a.2 b.2 = true).

#[global] Instance date_symbol_le_dec : RelDecision date_symbol_le.
Proof. intros a b. unfold date_symbol_le. apply _. Defined.

Definition groupby_date (position_times : list Position.t)
    : list (Z * list Position.t) :=
  groupby Z.le Position.date position_times.

Definition groupby_date_symbol (position_times : list Position.t)
    : list ((Z * string) * list Position.t) :=
  groupby date_symbol_le (λ p, (Position.date p, Position.symbol p)) position_times.

(** What [save_daily_trades] computes: the equity rows and one summary per
    date. The creation of the directory, the JSON and Excel files, the
    workbook sheets and charts, the conversion of the holding times to text
    and the printing are not modelled: [Ok] carries the values the function
    has computed when all of these succeed, and an exception raised by one of
    them has no counterpart here. *)
Definition save_daily_trades (position_times : list Position.t)
    (balance_df : list Deal.t) : result (list EquityRow.t * list Summary.t) :=
  let equity := equity_df position_times balance_df in
  summaries ← mapM (λ g : Z * list Position.t, day_summary g.1 g.2)
                   (groupby_date position_times);
  mret (equity, summaries).

(** The result of [analyze_trades_by_day]: the printed equity statistics
    ([None] when there is no position), what was saved, and the returned
    [daily_summary] (before [format_time] and the rounding to two decimals
    of lines 741-749). As for [save_daily_trades], the printing and the
    writing of files are not modelled: [Ok] carries the values computed when
    they succeed. *)
Module Analysis.
Record t : Type := mk {
  equity_stats : option (Q * Q * npfloat);
  saved : list EquityRow.t * list Summary.t;
  daily_summary : list Stats.t
}.
End Analysis.

Definition analyze_trades_by_day (df : list Trade.t) (balance_df : list Deal.t)
    : result Analysis.t :=
  let position_times := calculate_position_times df in
  if decide (length position_times = 0) then
    mret {| Analysis.equity_stats := None;
            Analysis.saved := ([], []);
            Analysis.daily_summary := [] |}
  else
    let stats := equity_summary position_times balance_df in
    saved ← save_daily_trades position_times balance_df;
    daily_stats ← mapM (λ g : (Z * string) * list Position.t, symbol_stats g.1 g.2)
                       (groupby_date_symbol position_times);
    mret {| Analysis.equity_stats := Some stats;
            Analysis.saved := saved;
            Analysis.daily_summary := daily_stats |}.

(** ** Entry points *)

(** What the terminal answers during one run. *)
Module Feed.
Record t : Type := mk {
  initialize : bool;
  deals : option (list Deal.t);
  account_history : option (list Deal.t);
  orders : option (list Order.t)
}.
End Feed.

(** The value bound to [trades_df] by a successful unpacking is the first
    component of the pair; the test [trades_df is not None] reads it as a
    Python value that may be [None]. *)
Definition unpack_history (feed : Feed.t)
    : result (option (list Trade.t) * list Deal.t) :=
  p ← py_unpack2 (get_trades_history (Feed.deals feed)
                    (Feed.account_history feed) (Feed.orders feed));
  mret (Some p.1, p.2).

(** [main]: [Ok None] when nothing is analysed, [Ok (Some a)] when the report
    [a] is computed, [Raise e] when [e] leaves [main] (the [finally] clause
    shuts the terminal down and lets it through). [format_output] and the
    writing of the CSV file, which follow the analysis, are not modelled. *)
Definition main (feed : Feed.t) : result (option Analysis.t) :=
  if negb (Feed.initialize feed) then mret None
  else
    p ← unpack_history feed;
    match p.1 with
    | Some trades_df =>
        daily_analysis ← analyze_trades_by_day trades_df p.2;
        mret (Some daily_analysis)
    | None => mret None
    end.

(** An entry of the [tasks] dictionary of the API server. *)
Module Task.
Record t : Type := mk {
  status : string;
  error : option string;
  completed_at : option string
}.
End Task.

Definition task_failed (msg now : string) : Task.t :=
  {| Task.status := "failed"; Task.error := Some msg; Task.completed_at := Some now |}.

Definition task_completed (now : string) : Task.t :=
  {| Task.status := "completed"; Task.error := None; Task.completed_at := Some now |}.

(** The body of the [try] of [run_analysis] after a successful connection. *)
Definition run_analysis_body (now : string) (feed : Feed.t) : result Task.t :=
  p ← unpack_history feed;
  match p.1 with
  | Some trades_df =>
      _ ← analyze_trades_by_day trades_df p.2;
      mret (task_completed now)
  | None => mret (task_failed "No trade data found" now)
  end.

(** [run_analysis task_id]: the [tasks] dictionary afterwards; [now] is the
    clock reading stored in [completed_at]. *)
Definition run_analysis (tasks : gmap string Task.t) (task_id now : string)
    (feed : Feed.t) : gmap string Task.t :=
  if negb (Feed.initialize feed)
  then <[task_id := task_failed "Failed to connect to MT5" now]> tasks
  else
    match run_analysis_body now feed with
    | Ok task => <[task_id := task]> tasks
    | Raise e => <[task_id := task_failed (exn_str e) now]> tasks
    end.

(** ** Reference definitions used in the statements *)

(** The orders of one position, in the order the loop visits them. *)
Definition orders_of (pid : Z) (os : list Order.t) : list Order.t :=
  filter (λ o, Order.position_id o = pid) os.

(** The last non-zero value of a sequence. *)
Definition last_nonzero (vs : list Q) : option Q :=
  last (filter (λ v, Qnonzero v = true) vs).

(** The resolved value of a field, as the specification words it: the last
    non-zero value over the position's orders; when there is none, the value
    of the first order (a zero), or nothing for a position without orders. *)
Definition resolved (field : Order.t → Q) (os : list Order.t) (pid : Z) : option Q :=
  let vs := map field (orders_of pid os) in
  match last_nonzero vs with
  | Some v => Some v
  | None => head vs
  end.

(** The orders in time order: by the time at which they were placed, orders
    of the same time in feed order. *)
Definition setup_le (a b : Order.t) : Prop :=
  (Order.time_setup a ≤ Order.time_setup b)%Z.

#[global] Instance setup_le_dec : RelDecision setup_le.
Proof. intros a b. unfold setup_le. apply _. Defined.

Definition orders_by_time (os : list Order.t) : list Order.t :=
  stable_sort setup_le os.

(** A resolved stop-loss or take-profit that is present and not zero. *)
Definition is_set (v : option Q) : Prop := ∃ x, v = Some x ∧ ¬ (x == 0)%Q.

(** A trade is profitable when its profit (the sum over its deals, without
    commission and swap) is positive. *)
Definition profitable (p : Position.t) : Prop := (0 < Position.profit p)%Q.

#[global] Instance profitable_dec (p : Position.t) : Decision (profitable p).
Proof.
  unfold profitable.
  destruct (Qlt_le_dec 0 (Position.profit p)) as [Hlt|Hle]; [by left|right].
  by apply Qle_not_lt.
Defined.

(** The mean of the price changes of a set of trades, 0 for no trade. *)
Definition mean_price_change (trades : list Position.t) : Q :=
  if decide (trades = []) then 0%Q
  else (Qsum (map Position.price_change trades)
        / inject_Z (Z.of_nat (length trades)))%Q.

(** The win rate and the profit/loss ratio of a group, as the specification
    words them, over the profitable trades of the group and over the others
    (the losing ones). *)
Definition ratios_as_specified (group : list Position.t)
    (win_rate : Q) (avg_profit avg_loss ratio : npfloat) : Prop :=
  let wins := filter profitable group in
  let losses := filter (λ p, ¬ profitable p) group in
  (win_rate ==
     if decide (group = []) then 0
     else inject_Z (Z.of_nat (length wins)) / inject_Z (Z.of_nat (length group)) * 100)%Q
  ∧ (0 <= win_rate <= 100)%Q
  ∧ ∃ a l r,
      avg_profit = Fin a ∧ avg_loss = Fin l ∧ ratio = Fin r
      ∧ (a == mean_price_change wins)%Q
      ∧ (l == mean_price_change losses)%Q
      ∧ (0 < l → r == a / l)%Q
      ∧ (losses = [] ∨ l == 0 → r == 0)%Q
      ∧ (0 <= r)%Q.

(** ** Concrete feeds *)

(** One completed position (an IN and an OUT deal) and a lone IN deal. *)
Definition scenario_two_deals : list Trade.t :=
  [ Trade.mk (Deal.mk 100 DEAL_TYPE_BUY DEAL_ENTRY_IN 7 1 (12#10) 0 0 0 "EURUSD") None None;
    Trade.mk (Deal.mk 160 DEAL_TYPE_SELL DEAL_ENTRY_OUT 7 1 (13#10) 0 0 50 "EURUSD") None None;
    Trade.mk (Deal.mk 170 DEAL_TYPE_BUY DEAL_ENTRY_IN 8 1 (12#10) 0 0 0 "EURUSD") None None ].

(** A balance record (deposit or withdrawal) of the given amount. *)
Definition balance_deal (time : Z) (amount : Q) : Deal.t :=
  Deal.mk time DEAL_TYPE_BALANCE DEAL_ENTRY_IN 0 0 0 0 0 amount "".

(** The two deals of a position on EURUSD bought at 1.2 and sold at 1.3 one
    minute later with the given profit. *)
Definition round_trip (time : Z) (position_id : Z) (profit : Q) : list Deal.t :=
  [ Deal.mk time DEAL_TYPE_BUY DEAL_ENTRY_IN position_id 1 (12#10) 0 0 0 "EURUSD";
    Deal.mk (time + 60) DEAL_TYPE_SELL DEAL_ENTRY_OUT position_id 1 (13#10) 0 0 profit "EURUSD" ].

Definition feed_of (deals : list Deal.t) : Feed.t :=
  {| Feed.initialize := true;
     Feed.deals := Some deals;
     Feed.account_history := Some deals;
     Feed.orders := Some [] |}.

(** The closed positions and the balance records of a feed, as [main] passes
    them on. *)
Definition positions_of (feed : Feed.t) : list Position.t :=
  match get_trades_history (Feed.deals feed) (Feed.account_history feed)
          (Feed.orders feed) with
  | Some (df, _) => calculate_position_times df
  | None => []
  end.

Definition balance_of (feed : Feed.t) : list Deal.t :=
  match get_trades_history (Feed.deals feed) (Feed.account_history feed)
          (Feed.orders feed) with
  | Some (_, balance_df) => balance_df
  | None => []
  end.

(** A deposit of 500 on day 1 and a position closed with profit 100 on
    day 2. *)
Definition scenario_deposit : Feed.t :=
  feed_of (balance_deal 86400 500 :: round_trip 172800 7 100).

(** A position closed with a loss of 20000 on day 1. *)
Definition scenario_large_loss : Feed.t :=
  feed_of (round_trip 86400 7 (-20000)).

(** A withdrawal of 10000 on day 1 and a position closed with profit 100 on
    day 2. *)
Definition scenario_withdraw_all : Feed.t :=
  feed_of (balance_deal 86400 (-10000) :: round_trip 172800 7 100).

(** A withdrawal of 20000 on day 1; on day 2 a position closed with profit
    10000 and a withdrawal of 500. *)
Definition scenario_zero_divisor : Feed.t :=
  feed_of (balance_deal 86400 (-20000)
           :: round_trip 172800 7 10000 ++ [balance_deal 172900 (-500)]).

(** A feed without deals, and a feed with one lone deal. *)
Definition scenario_empty : Feed.t := feed_of [].

Definition scenario_lone_deal : Feed.t :=
  feed_of [Deal.mk 100 DEAL_TYPE_BUY DEAL_ENTRY_IN 8 1 (12#10) 0 0 0 "EURUSD"].



(** A position with two OUT deals of the same time, at 1.25 and then at
    1.75. *)
Definition scenario_equal_times : list Trade.t :=
  [ Trade.mk (Deal.mk 1000 DEAL_TYPE_BUY DEAL_ENTRY_IN 7 1 (12#10) 0 0 0 "EURUSD") None None;
    Trade.mk (Deal.mk 1020 DEAL_TYPE_SELL DEAL_ENTRY_OUT 7 1 (125#100) 0 0 10 "EURUSD") None None;
    Trade.mk (Deal.mk 1020 DEAL_TYPE_SELL DEAL_ENTRY_OUT 7 1 (175#100) 0 0 20 "EURUSD") None None ].

(** A group whose first deal in time is an OUT deal (time 50), before its IN
    deal (time 100) and a last OUT deal (time 160). *)
Definition scenario_out_first : list Trade.t :=
  [ Trade.mk (Deal.mk 100 DEAL_TYPE_BUY DEAL_ENTRY_IN 7 1 (12#10) 0 0 0 "EURUSD") None None;
    Trade.mk (Deal.mk 50 DEAL_TYPE_SELL DEAL_ENTRY_OUT 7 1 (125#100) 0 0 10 "EURUSD") None None;
    Trade.mk (Deal.mk 160 DEAL_TYPE_SELL DEAL_ENTRY_OUT 7 1 (13#10) 0 0 50 "EURUSD") None None ].

(** A SELL position closed at 1.2105 against a stop-loss of 1.2100. *)
Definition scenario_stop_loss : Trade.t :=
  Trade.mk (Deal.mk 160 DEAL_TYPE_BUY DEAL_ENTRY_OUT 9 1 (12105#10000) 0 0 (-5) "EURUSD")
           (Some (12100#10000)) (Some 0%Q).

(** ** Further functions of the two files *)

(** [get_gmt_day_range]: the first and the last instant of a calendar day.
    Instants are microseconds since the epoch here, the resolution of
    [datetime]: the day starts at 00:00:00 and ends at 23:59:59.999999. *)
Definition us_per_day : Z := 86400000000.

Definition get_gmt_day_range (date : Z) : Z * Z :=
  ((date * us_per_day)%Z, (date * us_per_day + 86399999999)%Z).

(** The window [get_trades_history] asks the terminal for, from the current
    date [end_date] and [days_back]. *)
Definition history_window (end_date days_back : Z) : Z * Z :=
  let start_date := (end_date - days_back)%Z in
  ((get_gmt_day_range start_date).1, (get_gmt_day_range end_date).2).

(** [analyze_slippage]: the day's positions with a positive slippage, the
    largest slippage first. *)
Definition slippage_ge (a b : Position.t) : Prop :=
  Qle_bool (Position.slippage b) (Position.slippage a) = true.

#[global] Instance slippage_ge_dec : RelDecision slippage_ge.
Proof. intros a b. unfold slippage_ge. apply _. Defined.

Definition analyze_slippage (position_times : list Position.t) (date : Z)
    : list Position.t :=
  let daily_trades := filter (λ p, Position.date p = date) position_times in
  let slippage_trades :=
    filter (λ p, Qgtb (Position.slippage p) 0 = true) daily_trades in
  if decide (length slippage_trades = 0) then []
  else stable_sort slippage_ge slippage_trades.

(** [equity_df[equity_df['日期'] <= date]]: the equity rows up to a day, as
    written to that day's workbook. *)
Definition daily_equity (equity : list EquityRow.t) (date : Z) : list EquityRow.t :=
  filter (λ r, (EquityRow.date r ≤ date)%Z) equity.

(** A row of the per-symbol sheet of a day's workbook ([symbol_summary] in
    [save_daily_trades]), before the rounding to two decimals; the columns
    of means, maxima and minima are left out. *)
Module SymbolRow.
Record t : Type := mk {
  symbol : string;
  volume : Q;
  profit : Q;
  commission : Q;
  swap : Q;
  total_profit : Q;
  count : nat;
  wins : nat;
  win_rate : npfloat;
  profit_loss_ratio : npfloat
}.
End SymbolRow.

Definition symbol_le (a b : string) : Prop := String.leb a b = true.

#[global] Instance symbol_le_dec : RelDecision symbol_le.
Proof. intros a b. unfold symbol_le. apply _. Defined.

(** The count and the sum of [is_profit] of a group, and their quotient: a
    division of two columns, not guarded. *)
Definition symbol_row (symbol : string) (rows : list Position.t) : SymbolRow.t :=
  let count := length rows in
  let wins := length (profit_trades rows) in
  {| SymbolRow.symbol := symbol;
     SymbolRow.volume := Qsum (map Position.volume rows);
     SymbolRow.profit := Qsum (map Position.profit rows);
     SymbolRow.commission := Qsum (map Position.commission rows);
     SymbolRow.swap := Qsum (map Position.swap rows);
     SymbolRow.total_profit := Qsum (map Position.total_profit rows);
     SymbolRow.count := count;
     SymbolRow.wins := wins;
     SymbolRow.win_rate :=
       np_mul (np_div (Fin (inject_Z (Z.of_nat wins)))
                      (Fin (inject_Z (Z.of_nat count))))
              (Fin 100);
     SymbolRow.profit_loss_ratio :=
       ratio_of (avg_points (profit_trades rows)) (avg_points (loss_trades rows)) |}.

Definition symbol_summary (group : list Position.t) : list SymbolRow.t :=
  map (λ g : string * list Position.t, symbol_row g.1 g.2)
      (groupby symbol_le Position.symbol group).

(** The number of deals of a feed with a given position id. *)
Definition group_size (ds : list Deal.t) (pid : Z) : nat :=
  length (filter (λ x, Deal.position_id x = pid) ds).

(** The two deals of the position closed against the stop-loss of 1.2100. *)
Definition scenario_stop_loss_position : list Trade.t :=
  [ Trade.mk (Deal.mk 100 DEAL_TYPE_SELL DEAL_ENTRY_IN 9 1 (12#10) 0 0 0 "EURUSD")
             (Some (12100#10000)) (Some 0%Q);
    scenario_stop_loss ].

(* ===== Theorems ===== *)

(** ** Arithmetic helpers *)

Lemma Qnonzero_true (x : Q) : Qnonzero x = true ↔ ¬ (x == 0)%Q.
Proof.
  unfold Qnonzero. rewrite negb_true_iff.
  split.
  - intros Hb He. apply Qeq_bool_iff in He. congruence.
  - intros Hn. destruct (Qeq_bool x 0) eqn:E; [|done].
    apply Qeq_bool_iff in E. contradiction.
Qed.

Lemma Qnonzero_false (x : Q) : Qnonzero x = false ↔ (x == 0)%Q.
Proof.
  unfold Qnonzero. rewrite negb_false_iff. apply Qeq_bool_iff.
Qed.

Lemma Qgtb_true (x y : Q) : Qgtb x y = true ↔ (y < x)%Q.
Proof.
  unfold Qgtb. rewrite Qgt_alt.
  destruct (x ?= y)%Q; split; congruence.
Qed.

Lemma Qgtb_false (x y : Q) : Qgtb x y = false ↔ (x <= y)%Q.
Proof.
  unfold Qgtb. rewrite Qle_alt.
  destruct (x ?= y)%Q; split; congruence.
Qed.

Lemma Qgeb_true (x y : Q) : Qgeb x y = true ↔ (y <= x)%Q.
Proof.
  unfold Qgeb. split.
  - intros H. apply Qnot_lt_le. rewrite Qlt_alt. destruct (x ?= y)%Q; congruence.
  - intros H. destruct (x ?= y)%Q eqn:E; try done.
    apply Qlt_alt in E. apply Qle_not_lt in H. contradiction.
Qed.

Lemma Qgeb_false (x y : Q) : Qgeb x y = false ↔ (x < y)%Q.
Proof.
  unfold Qgeb. rewrite Qlt_alt.
  destruct (x ?= y)%Q; split; congruence.
Qed.

Lemma Qsum_cons (x : Q) (l : list Q) : Qsum (x :: l) = (x + Qsum l)%Q.
Proof. reflexivity. Qed.

Lemma Qsum_app (l1 l2 : list Q) : (Qsum (l1 ++ l2) == Qsum l1 + Qsum l2)%Q.
Proof.
  induction l1 as [|x l1 IH].
  - change (Qsum l2 == 0 + Qsum l2)%Q. lra.
  - change (x + Qsum (l1 ++ l2) == x + Qsum l1 + Qsum l2)%Q. lra.
Qed.

Lemma Qsum_Permutation (l1 l2 : list Q) : l1 ≡ₚ l2 → (Qsum l1 == Qsum l2)%Q.
Proof.
  induction 1 as [|x l1 l2 _ IH|x y l|l1 l2 l3 _ IH1 _ IH2].
  - reflexivity.
  - rewrite !Qsum_cons. lra.
  - rewrite !Qsum_cons. lra.
  - lra.
Qed.

Lemma Qsum_nonneg (l : list Q) : Forall (λ x, 0 <= x)%Q l → (0 <= Qsum l)%Q.
Proof.
  induction 1 as [|x l Hx _ IH].
  - change (0 <= 0)%Q. lra.
  - rewrite Qsum_cons. lra.
Qed.

(** ** [unique], sorting and grouping *)

Section unique.
Context {A : Type} `{EqDecision A}.

Lemma elem_of_unique_from (seen l : list A) (x : A) :
  x ∈ unique_from seen l ↔ x ∈ l ∧ x ∉ seen.
Proof.
  revert seen. induction l as [|y l IH]; intros seen; simpl.
  - split; [inversion 1 | intros [H _]; inversion H].
  - destruct (decide (y ∈ seen)) as [Hy|Hy].
    + rewrite IH, elem_of_cons. split; [tauto|].
      intros [[->|H] Hn]; tauto.
    + rewrite elem_of_cons, IH, !elem_of_cons.
      split.
      * intros [->|[H Hn]]; [tauto|]. split; [tauto|]. tauto.
      * intros [[->|H] Hn]; [tauto|].
        destruct (decide (x = y)) as [->|Hne]; [tauto|]. right. tauto.
Qed.

Lemma NoDup_unique_from (seen l : list A) : NoDup (unique_from seen l).
Proof.
  revert seen. induction l as [|y l IH]; intros seen; simpl.
  - constructor.
  - destruct (decide (y ∈ seen)); [apply IH|].
    constructor; [|apply IH].
    rewrite elem_of_unique_from, elem_of_cons. tauto.
Qed.

Lemma elem_of_unique (l : list A) (x : A) : x ∈ unique l ↔ x ∈ l.
Proof.
  unfold unique. rewrite elem_of_unique_from. split; [tauto|].
  intros H. split; [done|]. apply not_elem_of_nil.
Qed.

Lemma NoDup_unique (l : list A) : NoDup (unique l).
Proof. apply NoDup_unique_from. Qed.
End unique.

Section stable_sort.
Context {A : Type} (R : relation A) `{RelDecision A A R}.

Lemma insert_sorted_Permutation (x : A) (l : list A) :
  insert_sorted R x l ≡ₚ x :: l.
Proof.
  induction l as [|y l IH]; [done|].
  simpl. destruct (decide (R x y)); [done|].
  rewrite IH. apply Permutation_swap.
Qed.

Lemma stable_sort_Permutation (l : list A) : stable_sort R l ≡ₚ l.
Proof.
  induction l as [|x l IH]; [done|].
  change (stable_sort R (x :: l)) with (insert_sorted R x (stable_sort R l)).
  by rewrite insert_sorted_Permutation, IH.
Qed.

Lemma StronglySorted_insert_sorted `{!Transitive R, !Total R} (x : A) (l : list A) :
  StronglySorted R l → StronglySorted R (insert_sorted R x l).
Proof.
  induction 1 as [|y l Hs IH Hall]; [repeat constructor|].
  simpl. destruct (decide (R x y)) as [Hxy|Hxy].
  - constructor; [by constructor|].
    constructor; [done|]. eapply Forall_impl; [exact Hall|].
    intros z Hz. by transitivity y.
  - constructor; [done|].
    rewrite insert_sorted_Permutation. constructor; [|done].
    by destruct (total R x y).
Qed.

Lemma StronglySorted_stable_sort `{!Transitive R, !Total R} (l : list A) :
  StronglySorted R (stable_sort R l).
Proof.
  induction l as [|x l IH]; [constructor|].
  change (stable_sort R (x :: l)) with (insert_sorted R x (stable_sort R l)).
  by apply StronglySorted_insert_sorted.
Qed.
End stable_sort.

Lemma elem_of_sort_asc (l : list Z) (x : Z) : x ∈ sort_asc l ↔ x ∈ l.
Proof. unfold sort_asc. by rewrite merge_sort_Permutation. Qed.

(** ** Record normalizer: the resolved stop-loss and take-profit *)

Lemma last_nonzero_snoc (vs : list Q) (v : Q) :
  last_nonzero (vs ++ [v]) = if Qnonzero v then Some v else last_nonzero vs.
Proof.
  unfold last_nonzero. rewrite filter_app, filter_cons, filter_nil.
  destruct (Qnonzero v) eqn:E.
  - rewrite decide_True by done. apply last_snoc.
  - rewrite decide_False by done. by rewrite app_nil_r.
Qed.


Lemma resolved_snoc_other (field : Order.t → Q) (os : list Order.t) (o : Order.t) (pid : Z) :
  Order.position_id o ≠ pid → resolved field (os ++ [o]) pid = resolved field os pid.
Proof.
  intros Hne. unfold resolved, orders_of.
  rewrite filter_app, filter_cons, filter_nil, decide_False by done.
  by rewrite app_nil_r.
Qed.

Lemma resolved_snoc_same (field : Order.t → Q) (os : list Order.t) (o : Order.t) :
  resolved field (os ++ [o]) (Order.position_id o) =
    match resolved field os (Order.position_id o) with
    | None => Some (field o)
    | Some v => if Qnonzero (field o) then Some (field o) else Some v
    end.
Proof.
  unfold resolved, orders_of.
  rewrite filter_app, filter_cons, filter_nil, decide_True by done.
  rewrite map_app. simpl. rewrite last_nonzero_snoc.
  set (vs := map field (filter _ os)).
  destruct (Qnonzero (field o)) eqn:E.
  - destruct (last_nonzero vs); [done|]. by destruct (head vs).
  - destruct (last_nonzero vs) eqn:El; [done|].
    destruct vs as [|v vs']; [done|]. done.
Qed.

Lemma resolved_None (field : Order.t → Q) (os : list Order.t) (pid : Z) :
  resolved field os pid = None ↔ orders_of pid os = [].
Proof.
  unfold resolved. split.
  - destruct (last_nonzero _); [done|].
    destruct (orders_of pid os); [done|]. done.
  - intros ->. done.
Qed.

(** The dictionary after the loop holds, for every position, the resolved
    value of each field. *)
Lemma orders_dict_lookup (os : list Order.t) (pid : Z) :
  lookup_sl (foldl orders_dict_step ∅ os) pid = resolved Order.sl os pid
  ∧ lookup_tp (foldl orders_dict_step ∅ os) pid = resolved Order.tp os pid.
Proof.
  unfold lookup_sl, lookup_tp.
  revert pid. induction os as [|o os IH] using rev_ind; intros pid.
  - simpl. by rewrite lookup_empty.
  - rewrite foldl_app. simpl. unfold orders_dict_step at 1 3.
    destruct (IH (Order.position_id o)) as [IHs IHt].
    destruct (decide (Order.position_id o = pid)) as [<-|Hne].
    + rewrite !resolved_snoc_same, <- IHs, <- IHt.
      destruct (foldl orders_dict_step ∅ os !! Order.position_id o) as [e|] eqn:E;
        rewrite lookup_insert_eq; simpl.
      * destruct (Qnonzero (Order.sl o)), (Qnonzero (Order.tp o)); done.
      * done.
    + rewrite !resolved_snoc_other by done.
      destruct (foldl orders_dict_step ∅ os !! Order.position_id o);
        rewrite lookup_insert_ne by done; apply IH.
Qed.

Lemma elem_of_keep_completed (df : list Trade.t) (r : Trade.t) :
  r ∈ keep_completed df → r ∈ df.
Proof. unfold keep_completed. rewrite list_elem_of_filter. tauto. Qed.




Lemma stable_sort_sorted_id {A} (R : relation A) `{RelDecision A A R} (l : list A) :
  StronglySorted R l → stable_sort R l = l.
Proof.
  induction 1 as [|x l Hs IH Hall]; [done|].
  change (stable_sort R (x :: l)) with (insert_sorted R x (stable_sort R l)).
  rewrite IH. destruct l as [|y l']; [done|].
  simpl. rewrite decide_True; [done|]. by inversion Hall.
Qed.

(** A feed that returns the orders in the order of their times is already in
    time order: on such a feed the order of the feed and the time order are
    the same. *)
Lemma orders_by_time_chronological (os : list Order.t) :
  StronglySorted setup_le os → orders_by_time os = os.
Proof. apply stable_sort_sorted_id. Qed.

(** ** Position matcher *)

Lemma sort_values_time_Permutation (rows : list Trade.t) :
  sort_values_time rows ≡ₚ rows.
Proof. apply stable_sort_Permutation. Qed.

Lemma elem_of_rows_of (pid : Z) (df : list Trade.t) (r : Trade.t) :
  r ∈ rows_of pid df ↔ Trade.position_id r = pid ∧ r ∈ df.
Proof. unfold rows_of. by rewrite list_elem_of_filter. Qed.

Lemma series_min_spec (l : list Z) (m : Z) :
  series_min l = Some m → m ∈ l ∧ ∀ x, x ∈ l → (m ≤ x)%Z.
Proof.
  destruct l as [|a l]; [done|]. simpl. intros [= <-].
  induction l as [|b l IH]; simpl.
  - split; [left|]. intros x Hx. apply list_elem_of_singleton in Hx. lia.
  - destruct IH as [Hin Hle]. split.
    + destruct (Z.min_spec b (foldr Z.min a l)) as [[_ ->]|[_ ->]].
      * right. left.
      * apply elem_of_cons in Hin as [->|Hin]; [left|right; right; done].
    + intros x Hx. apply elem_of_cons in Hx as [->|Hx].
      * specialize (Hle a ltac:(left)). lia.
      * apply elem_of_cons in Hx as [->|Hx]; [lia|].
        specialize (Hle x ltac:(right; done)). lia.
Qed.

Lemma series_max_spec (l : list Z) (m : Z) :
  series_max l = Some m → m ∈ l ∧ ∀ x, x ∈ l → (x ≤ m)%Z.
Proof.
  destruct l as [|a l]; [done|]. simpl. intros [= <-].
  induction l as [|b l IH]; simpl.
  - split; [left|]. intros x Hx. apply list_elem_of_singleton in Hx. lia.
  - destruct IH as [Hin Hle]. split.
    + destruct (Z.max_spec b (foldr Z.max a l)) as [[_ ->]|[_ ->]].
      * apply elem_of_cons in Hin as [->|Hin]; [left|right; right; done].
      * right. left.
    + intros x Hx. apply elem_of_cons in Hx as [->|Hx].
      * specialize (Hle a ltac:(left)). lia.
      * apply elem_of_cons in Hx as [->|Hx]; [lia|].
        specialize (Hle x ltac:(right; done)). lia.
Qed.

(** What a produced row was built from. *)
Lemma position_row_inv (df : list Trade.t) (pid : Z) (p : Position.t) :
  position_row df pid = Some p →
  let position_trades := sort_values_time (rows_of pid df) in
  ∃ open_trade close_trade open_time close_time,
    head (filter (λ r, Trade.entry r = DEAL_ENTRY_IN) position_trades) = Some open_trade
    ∧ last (filter (λ r, Trade.entry r = DEAL_ENTRY_OUT) position_trades) = Some close_trade
    ∧ series_min (map Trade.time position_trades) = Some open_time
    ∧ series_max (map Trade.time position_trades) = Some close_time
    ∧ Position.position_id p = pid
    ∧ Position.open_time p = open_time
    ∧ Position.close_time p = close_time
    ∧ Position.holding_time p = (close_time - open_time)%Z
    ∧ Position.close_price p = Deal.price (Trade.deal close_trade)
    ∧ (Position.sl_tp_price p, Position.close_type p, Position.slippage p)
        = classify_close close_trade
    ∧ Position.profit p = Qsum (map (λ r, Deal.profit (Trade.deal r)) position_trades)
    ∧ Position.commission p = Qsum (map (λ r, Deal.commission (Trade.deal r)) position_trades)
    ∧ Position.swap p = Qsum (map (λ r, Deal.swap (Trade.deal r)) position_trades)
    ∧ Position.total_profit p
        = (Position.profit p + Position.commission p + Position.swap p)%Q
    ∧ Position.price_change p
        = Qabs (Position.close_price p - Position.open_price p).
Proof.
  intros H position_trades. unfold position_row in H.
  change (sort_values_time (rows_of pid df)) with position_trades in H.
  destruct (head _) as [open_trade|] eqn:Ho; [|done].
  destruct (last _) as [close_trade|] eqn:Hc; [|done].
  destruct (classify_close close_trade) as [[ref kind] slip] eqn:Hk.
  destruct (series_min _) as [open_time|] eqn:Hmin; [|done].
  destruct (series_max _) as [close_time|] eqn:Hmax; [|done].
  injection H as <-. simpl.
  exists open_trade, close_trade, open_time, close_time.
  repeat split; done.
Qed.

Lemma head_filter_is_Some {A} (P : A → Prop) `{∀ x, Decision (P x)} (l : list A) (x : A) :
  x ∈ l → P x → is_Some (head (filter P l)).
Proof.
  intros Hin HP.
  assert (x ∈ filter P l) as Hf by (apply list_elem_of_filter; done).
  destruct (filter P l); [inversion Hf|]. by eexists.
Qed.

Lemma last_filter_is_Some {A} (P : A → Prop) `{∀ x, Decision (P x)} (l : list A) (x : A) :
  x ∈ l → P x → is_Some (last (filter P l)).
Proof.
  intros Hin HP.
  assert (x ∈ filter P l) as Hf by (apply list_elem_of_filter; done).
  destruct (last (filter P l)) eqn:E; [by eexists|].
  apply last_None in E. rewrite E in Hf. inversion Hf.
Qed.

(** A group with an IN deal and an OUT deal always yields a row. *)
Lemma position_row_is_Some (df : list Trade.t) (pid : Z) (r_in r_out : Trade.t) :
  r_in ∈ rows_of pid df → Trade.entry r_in = DEAL_ENTRY_IN →
  r_out ∈ rows_of pid df → Trade.entry r_out = DEAL_ENTRY_OUT →
  is_Some (position_row df pid).
Proof.
  intros Hin Ein Hout Eout. unfold position_row.
  set (position_trades := sort_values_time (rows_of pid df)).
  assert (r_in ∈ position_trades) as Hin'
    by (unfold position_trades; by rewrite sort_values_time_Permutation).
  assert (r_out ∈ position_trades) as Hout'
    by (unfold position_trades; by rewrite sort_values_time_Permutation).
  destruct (head_filter_is_Some (λ r, Trade.entry r = DEAL_ENTRY_IN) _ _ Hin' Ein)
    as [open_trade ->].
  destruct (last_filter_is_Some (λ r, Trade.entry r = DEAL_ENTRY_OUT) _ _ Hout' Eout)
    as [close_trade ->].
  destruct (classify_close close_trade) as [[ref kind] slip].
  destruct position_trades as [|r0 rest]; [inversion Hin'|].
  simpl. by eexists.
Qed.

(** A group without an IN deal, or without an OUT deal, yields none. *)
Lemma position_row_None (df : list Trade.t) (pid : Z) :
  (¬ ∃ r, r ∈ rows_of pid df ∧ Trade.entry r = DEAL_ENTRY_IN)
  ∨ (¬ ∃ r, r ∈ rows_of pid df ∧ Trade.entry r = DEAL_ENTRY_OUT) →
  position_row df pid = None.
Proof.
  intros Hno. destruct (position_row df pid) as [p|] eqn:E; [|done].
  apply position_row_inv in E as (ot & ct & _ & _ & Ho & Hc & _).
  exfalso. destruct Hno as [Hno|Hno]; apply Hno.
  - exists ot. apply head_Some_elem_of, list_elem_of_filter in Ho as [Ho1 Ho2].
    by rewrite sort_values_time_Permutation in Ho2.
  - exists ct. apply last_Some_elem_of, list_elem_of_filter in Hc as [Hc1 Hc2].
    by rewrite sort_values_time_Permutation in Hc2.
Qed.

Lemma elem_of_calculate_position_times (df : list Trade.t) (p : Position.t) :
  p ∈ calculate_position_times df ↔
  ∃ pid, pid ∈ map Trade.position_id df ∧ position_row df pid = Some p.
Proof.
  unfold calculate_position_times. rewrite list_elem_of_omap.
  setoid_rewrite elem_of_unique. done.
Qed.

Lemma elem_of_completed_positions (df : list Trade.t) (pid : Z) :
  pid ∈ completed_positions df ↔ 2 ≤ length (rows_of pid df).
Proof.
  unfold completed_positions, all_positions.
  rewrite list_elem_of_fmap. split.
  - intros ([pid' n] & -> & Hin). apply list_elem_of_filter in Hin as [Hn Hin].
    apply list_elem_of_fmap in Hin as (pid'' & [= -> ->] & _). done.
  - intros Hlen. exists (pid, length (rows_of pid df)). split; [done|].
    apply list_elem_of_filter. split; [done|].
    apply list_elem_of_fmap. exists pid. split; [done|].
    rewrite elem_of_sort_asc, elem_of_unique.
    destruct (rows_of pid df) as [|r rest] eqn:E; [simpl in Hlen; lia|].
    assert (r ∈ rows_of pid df) as Hr by (rewrite E; left).
    apply elem_of_rows_of in Hr as [<- Hr].
    apply list_elem_of_fmap. by exists r.
Qed.

Lemma rows_of_keep_completed (df : list Trade.t) (pid : Z) :
  rows_of pid (keep_completed df) =
    if decide (2 ≤ length (rows_of pid df)) then rows_of pid df else [].
Proof.
  unfold keep_completed, rows_of at 1. rewrite list_filter_filter.
  destruct (decide _) as [Hlen|Hlen].
  - unfold rows_of. apply list_filter_iff. intros r. split; [tauto|].
    intros <-. split; [done|]. by apply elem_of_completed_positions.
  - destruct (filter _ df) as [|r rest] eqn:E; [done|].
    assert (r ∈ filter (λ x, Trade.position_id x = pid
                            ∧ Trade.position_id x ∈ completed_positions df) df) as Hr
      by (rewrite E; left).
    apply list_elem_of_filter in Hr as [[<- Hc] _].
    by apply elem_of_completed_positions in Hc.
Qed.

Lemma filter_omap_NoDup (f : Z → option Position.t) (l : list Z) (pid : Z) :
  NoDup l →
  (∀ y p, f y = Some p → Position.position_id p = y) →
  filter (λ p, Position.position_id p = pid) (omap f l) =
    if decide (pid ∈ l) then option_list (f pid) else [].
Proof.
  intros Hnd Hid. induction Hnd as [|y l Hy Hnd IH]; [done|].
  change (omap f (y :: l))
    with (match f y with Some p => p :: omap f l | None => omap f l end).
  destruct (decide (pid = y)) as [->|Hne].
  - rewrite decide_True by left.
    rewrite decide_False in IH by done.
    destruct (f y) as [p|] eqn:E; [|done].
    rewrite filter_cons, decide_True by eauto. by rewrite IH.
  - assert (filter (λ p, Position.position_id p = pid)
              (match f y with Some p => p :: omap f l | None => omap f l end)
            = filter (λ p, Position.position_id p = pid) (omap f l)) as ->.
    { destruct (f y) as [p|] eqn:E; [|done].
      rewrite filter_cons, decide_False; [done|].
      apply Hid in E. congruence. }
    rewrite IH. destruct (decide (pid ∈ l)) as [Hin|Hin].
    + rewrite decide_True by (by right). done.
    + rewrite decide_False; [done|]. rewrite elem_of_cons. tauto.
Qed.

Lemma position_row_id (df : list Trade.t) (pid : Z) (p : Position.t) :
  position_row df pid = Some p → Position.position_id p = pid.
Proof.
  intros H. apply position_row_inv in H as (? & ? & ? & ? & ? & ? & ? & ? & ? & _).
  done.
Qed.

(** The rows of one position among the closed positions. *)
Lemma closed_of_position (df : list Trade.t) (pid : Z) :
  filter (λ p, Position.position_id p = pid) (calculate_position_times df) =
    if decide (pid ∈ map Trade.position_id df)
    then option_list (position_row df pid) else [].
Proof.
  unfold calculate_position_times.
  rewrite filter_omap_NoDup.
  - destruct (decide (pid ∈ unique _)) as [H|H];
      rewrite elem_of_unique in H; [by rewrite decide_True|by rewrite decide_False].
  - apply NoDup_unique.
  - apply position_row_id.
Qed.

(** C4. Over the deals of a feed and the closed positions built from the
    completed ones: a position whose group has exactly one deal yields no
    closed position; a position whose group has at least two deals, an IN
    deal and an OUT deal among them, yields exactly one; a group of at least
    two deals without an IN deal or without an OUT deal yields none (the
    function returns the list of rows, there is no error case). *)
Theorem completed_group_yields_one_position (df : list Trade.t) (pid : Z) :
  let group := rows_of pid df in
  let closed := filter (λ p, Position.position_id p = pid)
                  (calculate_position_times (keep_completed df)) in
  (length group = 1 → closed = [])
  ∧ (2 ≤ length group →
     (∃ r, r ∈ group ∧ Trade.entry r = DEAL_ENTRY_IN) →
     (∃ r, r ∈ group ∧ Trade.entry r = DEAL_ENTRY_OUT) →
     length closed = 1)
  ∧ (2 ≤ length group →
     (¬ ∃ r, r ∈ group ∧ Trade.entry r = DEAL_ENTRY_IN)
     ∨ (¬ ∃ r, r ∈ group ∧ Trade.entry r = DEAL_ENTRY_OUT) →
     closed = []).
Proof.
  intros group closed. subst closed. rewrite closed_of_position.
  pose proof (rows_of_keep_completed df pid) as Hrows. fold group in Hrows.
  split; [|split].
  - intros Hlen. rewrite decide_False in Hrows by lia.
    rewrite position_row_None; [by destruct (decide _)|].
    left. intros (r & Hr & _). rewrite Hrows in Hr. inversion Hr.
  - intros Hlen (r_in & Hin & Ein) (r_out & Hout & Eout).
    rewrite decide_True in Hrows by done.
    rewrite <- Hrows in Hin, Hout.
    destruct (position_row_is_Some _ _ _ _ Hin Ein Hout Eout) as [p ->].
    rewrite decide_True; [done|].
    apply elem_of_rows_of in Hin as [<- Hin].
    apply list_elem_of_fmap. by exists r_in.
  - intros Hlen Hno. rewrite decide_True in Hrows by done.
    rewrite position_row_None; [by destruct (decide _)|].
    by rewrite Hrows.
Qed.

Lemma completed_group_yields_one_position_witness :
  length (filter (λ p, Position.position_id p = 7%Z)
            (calculate_position_times (keep_completed scenario_two_deals))) = 1.
Proof.
  apply (completed_group_yields_one_position scenario_two_deals 7).
  - vm_compute. lia.
  - eexists. split; [left|]. reflexivity.
  - eexists. split; [right; left|]. reflexivity.
Defined.

(** ** Slippage classifier *)

Lemma notna_nonzero_Some (v : option Q) (x : Q) :
  notna_nonzero v = Some x ↔ v = Some x ∧ ¬ (x == 0)%Q.
Proof.
  unfold notna_nonzero. destruct v as [y|]; [|split; [done|intros [? _]; done]].
  destruct (Qnonzero y) eqn:E.
  - apply Qnonzero_true in E. split; [intros [= <-]; done|intros [[= <-] _]; done].
  - apply Qnonzero_false in E. split; [done|]. intros [[= <-] Hn]. contradiction.
Qed.

Lemma notna_nonzero_None (v : option Q) : notna_nonzero v = None ↔ ¬ is_set v.
Proof.
  unfold is_set. split.
  - intros Hn (x & Hx & Hx0).
    assert (notna_nonzero v = Some x) as H by (by apply notna_nonzero_Some).
    congruence.
  - intros Hn. destruct (notna_nonzero v) as [x|] eqn:E; [|done].
    apply notna_nonzero_Some in E. exfalso. apply Hn. by exists x.
Qed.

(** A value known to be set contradicts the hypothesis that it is not. *)
Ltac absurd_not_set :=
  match goal with
  | Hn : ¬ is_set ?v, E : ?v = Some ?x |- _ => exfalso; apply Hn; by exists x
  end.

(** The three cases of the classifier on a close record. *)
Lemma classify_close_spec (close_trade : Trade.t) :
  let price := Deal.price (Trade.deal close_trade) in
  let '(ref, kind, slip) := classify_close close_trade in
  (∀ s, Trade.sl close_trade = Some s → ¬ (s == 0)%Q →
     kind = by_sl ∧ ref = Some s ∧ slip = Qabs (price - s))
  ∧ (¬ is_set (Trade.sl close_trade) →
     ∀ t, Trade.tp close_trade = Some t → ¬ (t == 0)%Q →
     kind = by_tp ∧ ref = Some t ∧ slip = Qabs (price - t))
  ∧ (¬ is_set (Trade.sl close_trade) → ¬ is_set (Trade.tp close_trade) →
     kind = by_market ∧ ref = None ∧ slip = 0%Q)
  ∧ (0 <= slip)%Q
  ∧ (kind = by_market → slip = 0%Q).
Proof.
  intros price. unfold classify_close. fold price.
  destruct (notna_nonzero (Trade.sl close_trade)) as [s|] eqn:Es;
    [apply notna_nonzero_Some in Es as [Es Hs]
    |apply notna_nonzero_None in Es;
     destruct (notna_nonzero (Trade.tp close_trade)) as [t|] eqn:Et;
       [apply notna_nonzero_Some in Et as [Et Ht]
       |apply notna_nonzero_None in Et]].
  all: split; [intros s' Hs' Hn'
              |split; [intros Hns t' Ht' Hn'
                      |split; [intros Hns Hnt
                              |split; [|intros Hk]]]].
  all: first [ absurd_not_set
             | apply Qabs_nonneg
             | by simplify_eq
             | done ].
Qed.

(** The records a closed position was built from belong to its group. *)
Lemma position_row_close_trade (df : list Trade.t) (pid : Z) (p : Position.t) :
  position_row df pid = Some p →
  ∃ close_trade,
    close_trade ∈ df
    ∧ Trade.position_id close_trade = pid
    ∧ Trade.entry close_trade = DEAL_ENTRY_OUT
    ∧ Position.close_price p = Deal.price (Trade.deal close_trade)
    ∧ (Position.sl_tp_price p, Position.close_type p, Position.slippage p)
        = classify_close close_trade.
Proof.
  intros H. apply position_row_inv in H
    as (ot & ct & otime & ctime & _ & Hc & _ & _ & _ & _ & _ & _ & Hprice & Hk & _).
  exists ct. apply last_Some_elem_of, list_elem_of_filter in Hc as [Hc1 Hc2].
  rewrite sort_values_time_Permutation in Hc2.
  apply elem_of_rows_of in Hc2 as [Hc2 Hc3]. done.
Qed.

(** C5. Every closed position was classified from an OUT deal of its group,
    the close record: a stop-loss that is present and not zero gives the
    reason [by_sl] with the stop-loss as reference, whatever the take-profit;
    otherwise a take-profit that is present and not zero gives [by_tp] with
    the take-profit as reference; otherwise the reason is [by_market], without
    reference and with slippage 0.  With a reference the slippage is
    |close_price - reference|.  The slippage is never negative and is 0 for a
    market close. *)
Theorem close_reason_and_slippage (df : list Trade.t) (p : Position.t) :
  p ∈ calculate_position_times df →
  ∃ close_trade,
    close_trade ∈ df
    ∧ Trade.position_id close_trade = Position.position_id p
    ∧ Trade.entry close_trade = DEAL_ENTRY_OUT
    ∧ Position.close_price p = Deal.price (Trade.deal close_trade)
    ∧ (∀ s, Trade.sl close_trade = Some s → ¬ (s == 0)%Q →
         Position.close_type p = by_sl
         ∧ Position.sl_tp_price p = Some s
         ∧ Position.slippage p = Qabs (Position.close_price p - s))
    ∧ (¬ is_set (Trade.sl close_trade) →
       ∀ t, Trade.tp close_trade = Some t → ¬ (t == 0)%Q →
         Position.close_type p = by_tp
         ∧ Position.sl_tp_price p = Some t
         ∧ Position.slippage p = Qabs (Position.close_price p - t))
    ∧ (¬ is_set (Trade.sl close_trade) → ¬ is_set (Trade.tp close_trade) →
         Position.close_type p = by_market
         ∧ Position.sl_tp_price p = None
         ∧ Position.slippage p = 0%Q)
    ∧ (0 <= Position.slippage p)%Q
    ∧ (Position.close_type p = by_market → Position.slippage p = 0%Q).
Proof.
  intros Hp. apply elem_of_calculate_position_times in Hp as (pid & _ & Hrow).
  pose proof (position_row_id _ _ _ Hrow) as Hid.
  apply position_row_close_trade in Hrow as (ct & Hin & Hpid & Hout & Hprice & Hk).
  exists ct. rewrite Hid, Hprice.
  pose proof (classify_close_spec ct) as Hspec. simpl in Hspec.
  rewrite <- Hk in Hspec. done.
Qed.

Lemma close_reason_and_slippage_witness :
  ∃ p, p ∈ calculate_position_times scenario_two_deals
       ∧ Position.close_type p = by_market ∧ Position.slippage p = 0%Q.
Proof.
  eexists. split; [left|].
  destruct (close_reason_and_slippage scenario_two_deals _ ltac:(left))
    as (ct & _ & _ & _ & _ & _ & _ & _ & _ & Hm).
  split; [reflexivity|]. apply Hm. reflexivity.
Defined.

(** A close at 1.2105 against a stop-loss of 1.2100: reason [by_sl],
    slippage 0.0005. *)
Example classify_close_stop_loss :
  ∃ slip, classify_close scenario_stop_loss = (Some (12100#10000)%Q, by_sl, slip)
          ∧ (slip == 5#10000)%Q.
Proof. eexists. split; [reflexivity|]. vm_compute. reflexivity. Qed.

(** ** Sums over the deal group *)

Lemma Qsum_map_Permutation {A} (f : A → Q) (l1 l2 : list A) :
  l1 ≡ₚ l2 → (Qsum (map f l1) == Qsum (map f l2))%Q.
Proof. intros H. apply Qsum_Permutation. by apply Permutation_map. Qed.

(** C6. For every closed position, profit, commission and swap are the sums
    of the field over all the deals of the position's group, and
    total_profit is profit + commission + swap. *)
Theorem position_sums_over_group (df : list Trade.t) (p : Position.t) :
  p ∈ calculate_position_times df →
  let group := rows_of (Position.position_id p) df in
  (Position.profit p == Qsum (map (λ r, Deal.profit (Trade.deal r)) group))%Q
  ∧ (Position.commission p == Qsum (map (λ r, Deal.commission (Trade.deal r)) group))%Q
  ∧ (Position.swap p == Qsum (map (λ r, Deal.swap (Trade.deal r)) group))%Q
  ∧ Position.total_profit p
      = (Position.profit p + Position.commission p + Position.swap p)%Q.
Proof.
  intros Hp group. apply elem_of_calculate_position_times in Hp as (pid & _ & Hrow).
  apply position_row_inv in Hrow
    as (ot & ct & otime & ctime & _ & _ & _ & _ & Hid & _ & _ & _ & _ & _
        & Hprofit & Hcomm & Hswap & Htotal & _).
  subst group. rewrite Hid, Hprofit, Hcomm, Hswap.
  repeat split.
  - apply Qsum_map_Permutation, sort_values_time_Permutation.
  - apply Qsum_map_Permutation, sort_values_time_Permutation.
  - apply Qsum_map_Permutation, sort_values_time_Permutation.
  - by rewrite Htotal, Hprofit, Hcomm, Hswap.
Qed.

Lemma position_sums_over_group_witness :
  ∃ p, p ∈ calculate_position_times scenario_two_deals
       ∧ (Position.profit p == 50)%Q
       ∧ Position.total_profit p
           = (Position.profit p + Position.commission p + Position.swap p)%Q.
Proof.
  eexists. split; [left|].
  destruct (position_sums_over_group scenario_two_deals _ ltac:(left))
    as (Hprofit & _ & _ & Htotal).
  split; [|exact Htotal]. rewrite Hprofit. reflexivity.
Defined.

(** ** Open and close time *)

(** C10. For every closed position, open_time is the least and close_time
    the greatest deal time over all the deals of the position's group,
    whatever their entry kind, and holding_time = close_time - open_time,
    which is therefore never negative. *)
Theorem open_close_time_min_max (df : list Trade.t) (p : Position.t) :
  p ∈ calculate_position_times df →
  let times := map Trade.time (rows_of (Position.position_id p) df) in
  Position.open_time p ∈ times
  ∧ Position.close_time p ∈ times
  ∧ (∀ t, t ∈ times → (Position.open_time p ≤ t ≤ Position.close_time p)%Z)
  ∧ Position.holding_time p = (Position.close_time p - Position.open_time p)%Z
  ∧ (0 ≤ Position.holding_time p)%Z.
Proof.
  intros Hp times. apply elem_of_calculate_position_times in Hp as (pid & _ & Hrow).
  apply position_row_inv in Hrow
    as (ot & ct & otime & ctime & _ & _ & Hmin & Hmax & Hid & Ho & Hc & Hh & _).
  apply series_min_spec in Hmin as [Hmin1 Hmin2].
  apply series_max_spec in Hmax as [Hmax1 Hmax2].
  assert (map Trade.time (sort_values_time (rows_of pid df)) ≡ₚ times) as Hperm.
  { subst times. rewrite Hid. apply Permutation_map, sort_values_time_Permutation. }
  rewrite Hperm in Hmin1, Hmax1.
  setoid_rewrite Hperm in Hmin2. setoid_rewrite Hperm in Hmax2.
  rewrite Ho, Hc, Hh. repeat split; try done.
  - by apply Hmin2.
  - by apply Hmax2.
  - specialize (Hmin2 _ Hmax1). lia.
Qed.

(** The open time need not be the time of the earliest IN deal: here it is
    the time of an earlier OUT deal. *)
Example open_time_of_an_OUT_deal :
  map (λ p, (Position.open_time p, Position.close_time p, Position.holding_time p))
      (calculate_position_times scenario_out_first)
  = [(50, 160, 110)%Z].
Proof. reflexivity. Qed.

(** Of two OUT deals of the same time the close record is the one that
    comes later in the feed: here the close price is 1.75. *)
Example close_record_among_equal_times :
  map (λ p, Qred (Position.close_price p)) (calculate_position_times scenario_equal_times)
  = [(7#4)%Q].
Proof. reflexivity. Qed.

Lemma open_close_time_min_max_witness :
  ∃ p, p ∈ calculate_position_times scenario_two_deals
       ∧ (0 ≤ Position.holding_time p)%Z.
Proof.
  eexists. split; [left|].
  apply (open_close_time_min_max scenario_two_deals _ ltac:(left)).
Defined.

(** ** Equity rows and drawdown states *)

Lemma equity_rows_run (pts : list Position.t) (bal : list Deal.t)
    (st : Equity.t) (dates : list Z) :
  map EquityRow.equity (equity_rows pts bal (Equity.current_equity st) dates)
  = map Equity.current_equity (equity_run pts bal st dates).
Proof.
  revert st. induction dates as [|date dates IH]; intros st; [done|].
  simpl. f_equal.
  rewrite <- (IH (equity_step pts bal st date)). done.
Qed.

Lemma equity_rows_dates (pts : list Position.t) (bal : list Deal.t)
    (cur : Q) (dates : list Z) :
  map EquityRow.date (equity_rows pts bal cur dates) = dates.
Proof.
  revert cur. induction dates as [|date dates IH]; intros cur; [done|].
  simpl. by rewrite IH.
Qed.

Lemma equity_rows_recurrence (pts : list Position.t) (bal : list Deal.t)
    (cur : Q) (dates : list Z) (i : nat) (row : EquityRow.t) :
  let rows := equity_rows pts bal cur dates in
  rows !! i = Some row →
  EquityRow.balance_change row = daily_balance_change bal (EquityRow.date row)
  ∧ EquityRow.trading_profit row = daily_trading_profit pts (EquityRow.date row)
  ∧ EquityRow.equity row =
      (match i with
       | O => cur
       | S j => default 0%Q (EquityRow.equity <$> rows !! j)
       end + (EquityRow.balance_change row + EquityRow.trading_profit row))%Q.
Proof.
  revert cur i. induction dates as [|date dates IH]; intros cur i rows Hrow; [done|].
  destruct i as [|i].
  - injection Hrow as <-. done.
  - simpl in Hrow. apply IH in Hrow as (Hb & Ht & He).
    split; [done|]. split; [done|].
    rewrite He. destruct i as [|j]; done.
Qed.

Lemma length_equity_run (pts : list Position.t) (bal : list Deal.t)
    (st : Equity.t) (dates : list Z) :
  length (equity_run pts bal st dates) = length dates.
Proof.
  revert st. induction dates as [|date dates IH]; intros st; [done|].
  simpl. by rewrite IH.
Qed.

Lemma StronglySorted_lt_of_le_NoDup (l : list Z) :
  StronglySorted Z.le l → NoDup l → StronglySorted Z.lt l.
Proof.
  induction 1 as [|x l Hs IH Hall]; intros Hnd; [constructor|].
  apply NoDup_cons in Hnd as [Hx Hnd].
  constructor; [by apply IH|].
  rewrite Forall_forall in *. intros y Hy.
  specialize (Hall y Hy). assert (x ≠ y) by (intros ->; done). lia.
Qed.

Lemma all_dates_sorted (pts : list Position.t) (bal : list Deal.t) :
  StronglySorted Z.lt (all_dates pts bal).
Proof.
  unfold all_dates, sort_asc. apply StronglySorted_lt_of_le_NoDup.
  - apply StronglySorted_merge_sort; apply _.
  - rewrite merge_sort_Permutation. apply NoDup_unique.
Qed.

Lemma elem_of_all_dates (pts : list Position.t) (bal : list Deal.t) (d : Z) :
  d ∈ all_dates pts bal ↔
    (∃ p, p ∈ pts ∧ Position.date p = d) ∨ (∃ x, x ∈ bal ∧ balance_date x = d).
Proof.
  unfold all_dates. rewrite elem_of_sort_asc, elem_of_unique, elem_of_app, elem_of_unique.
  rewrite list_elem_of_fmap.
  assert (d ∈ (if decide (bal = []) then [] else unique (map balance_date bal))
          ↔ ∃ x, x ∈ bal ∧ balance_date x = d) as ->.
  { destruct (decide (bal = [])) as [->|Hne].
    - split; [inversion 1|]. intros (x & Hx & _). inversion Hx.
    - rewrite elem_of_unique, list_elem_of_fmap.
      split; [intros (x & -> & Hx)|intros (x & Hx & <-)]; by exists x. }
  split; (intros [(p & Hp)|Hb]; [left|by right]); exists p; by destruct Hp.
Qed.

Lemma elem_of_sort_values_close_time (pts : list Position.t) (p : Position.t) :
  p ∈ sort_values_close_time pts ↔ p ∈ pts.
Proof. unfold sort_values_close_time. by rewrite stable_sort_Permutation. Qed.

(** C9. For the same closed positions and balance records, the equity
    values of the rows emitted by [save_daily_trades] are, day by day, the
    equity values of the drawdown recurrence of [analyze_trades_by_day]: both
    start from 10000 and add the day's balance change and trading profit,
    over the same dates, which are the distinct close dates and balance
    dates in ascending order. *)
Theorem equity_rows_match_drawdown_states
    (position_times : list Position.t) (balance_df : list Deal.t) :
  let rows := equity_df position_times balance_df in
  let states := drawdown_states position_times balance_df in
  let sorted := sort_values_close_time position_times in
  let dates := all_dates sorted balance_df in
  map EquityRow.equity rows = map Equity.current_equity states
  ∧ map EquityRow.date rows = dates
  ∧ length states = length dates
  ∧ StronglySorted Z.lt dates
  ∧ (∀ d, d ∈ dates ↔
       (∃ p, p ∈ position_times ∧ Position.date p = d)
       ∨ (∃ x, x ∈ balance_df ∧ balance_date x = d))
  ∧ (∀ i row, rows !! i = Some row →
       EquityRow.balance_change row = daily_balance_change balance_df (EquityRow.date row)
       ∧ EquityRow.trading_profit row = daily_trading_profit sorted (EquityRow.date row)
       ∧ EquityRow.equity row =
           (match i with
            | O => 10000
            | S j => default 0%Q (EquityRow.equity <$> rows !! j)
            end + (EquityRow.balance_change row + EquityRow.trading_profit row))%Q).
Proof.
  intros rows states sorted dates.
  split; [apply (equity_rows_run sorted balance_df equity_init)|].
  split; [apply equity_rows_dates|].
  split; [apply length_equity_run|].
  split; [apply all_dates_sorted|].
  split.
  - intros d. unfold dates, sorted. rewrite elem_of_all_dates.
    by setoid_rewrite elem_of_sort_values_close_time.
  - intros i row Hrow.
    by apply (equity_rows_recurrence sorted balance_df initial_equity dates i row).
Qed.

(** ** Aggregator: win rate and profit/loss ratio *)

Lemma inject_Z_length_pos {A} (l : list A) :
  l ≠ [] → (0 < inject_Z (Z.of_nat (length l)))%Q.
Proof.
  intros Hne. destruct l as [|x l]; [done|].
  change 0%Q with (inject_Z 0). rewrite <- Zlt_Qlt. simpl. lia.
Qed.

Lemma Qeq_bool_pos_false (x : Q) : (0 < x)%Q → Qeq_bool x 0 = false.
Proof.
  intros Hx. destruct (Qeq_bool x 0) eqn:E; [|done].
  apply Qeq_bool_iff in E. lra.
Qed.

Lemma Qgtb_0_pos_false (x : Q) : (0 < x)%Q → Qgtb 0 x = false.
Proof. intros Hx. apply Qgtb_false. lra. Qed.

(** Division by, and multiplication with, a positive number. *)
Lemma np_div_pos (x y : Q) : (0 < y)%Q → np_div (Fin x) (Fin y) = Fin (x / y).
Proof.
  intros Hy. unfold np_div.
  rewrite (Qeq_bool_pos_false y), (Qgtb_0_pos_false y) by done.
  by rewrite andb_false_r.
Qed.

Lemma np_mul_pos_r (x y : Q) : (0 < y)%Q → np_mul (Fin x) (Fin y) = Fin (x * y).
Proof.
  intros Hy. unfold np_mul.
  rewrite (Qeq_bool_pos_false y), (Qgtb_0_pos_false y) by done.
  by rewrite !andb_false_r.
Qed.

Lemma np_mul_pos_l (x y : Q) : (0 < x)%Q → np_mul (Fin x) (Fin y) = Fin (x * y).
Proof.
  intros Hx. unfold np_mul.
  by rewrite (Qeq_bool_pos_false x), (Qgtb_0_pos_false x) by done.
Qed.

Lemma win_rate_of_spec (group : list Position.t) :
  ∃ w, win_rate_of group = Ok w
       ∧ (w == if decide (group = []) then 0
               else inject_Z (Z.of_nat (length (profit_trades group)))
                    / inject_Z (Z.of_nat (length group)) * 100)%Q
       ∧ (0 <= w <= 100)%Q.
Proof.
  unfold win_rate_of. destruct group as [|p group].
  - exists 0%Q. repeat split; done.
  - set (g := p :: group).
    rewrite decide_True by (simpl; lia).
    unfold py_truediv. rewrite decide_False by (simpl; lia).
    eexists. split; [reflexivity|]. split; [by rewrite decide_False|].
    assert (0 < inject_Z (Z.of_nat (length g)))%Q as Hm
      by (by apply inject_Z_length_pos).
    assert (inject_Z (Z.of_nat (length (profit_trades g)))
            <= inject_Z (Z.of_nat (length g)))%Q as Hle.
    { rewrite <- Zle_Qle. apply inj_le. unfold profit_trades. apply length_filter. }
    assert (0 <= inject_Z (Z.of_nat (length (profit_trades g))))%Q as Hn.
    { change 0%Q with (inject_Z 0). rewrite <- Zle_Qle. lia. }
    set (n := inject_Z (Z.of_nat (length (profit_trades g)))) in *.
    set (m := inject_Z (Z.of_nat (length g))) in *.
    assert (0 <= n / m)%Q as H0 by (apply Qle_shift_div_l; lra).
    assert (n / m <= 1)%Q as H1 by (apply Qle_shift_div_r; lra).
    lra.
Qed.

Lemma avg_points_spec (trades : list Position.t) :
  Forall (λ p, 0 <= Position.price_change p)%Q trades →
  ∃ a, avg_points trades = Fin a
       ∧ (a == mean_price_change trades)%Q
       ∧ (0 <= a)%Q.
Proof.
  intros Hpos. unfold avg_points, mean_price_change.
  destruct trades as [|p trades].
  - exists 0%Q. repeat split; done.
  - set (g := p :: trades) in *.
    rewrite decide_True by (simpl; lia). rewrite decide_False by done.
    assert (0 < inject_Z (Z.of_nat (length g)))%Q as Hm
      by (by apply inject_Z_length_pos).
    unfold series_mean. rewrite length_map, np_div_pos by done.
    eexists. split; [reflexivity|]. split; [reflexivity|].
    apply Qle_shift_div_l; [done|].
    assert (0 <= Qsum (map Position.price_change g))%Q as Hs.
    { apply Qsum_nonneg. by apply Forall_map. }
    lra.
Qed.

Lemma ratio_of_spec (a l : Q) :
  (0 <= a)%Q →
  ∃ r, ratio_of (Fin a) (Fin l) = Fin r
       ∧ (0 < l → r == a / l)%Q
       ∧ (l <= 0 → r == 0)%Q
       ∧ (0 <= r)%Q.
Proof.
  intros Ha. unfold ratio_of, np_gtb.
  destruct (Qgtb l 0) eqn:E.
  - apply Qgtb_true in E. rewrite np_div_pos by done.
    eexists. split; [reflexivity|]. split; [done|]. split; [lra|].
    apply Qle_shift_div_l; lra.
  - apply Qgtb_false in E. exists 0%Q. split; [done|]. split; [lra|]. split; lra.
Qed.

Lemma Forall_filter_sub {A} (P Q : A → Prop) `{∀ x, Decision (P x)} (l : list A) :
  Forall Q l → Forall Q (filter P l).
Proof.
  rewrite !Forall_forall. intros HQ x Hx.
  apply list_elem_of_filter in Hx as [_ Hx]. by apply HQ.
Qed.

Lemma filter_ext_in {A} (P Q : A → Prop) `{∀ x, Decision (P x)} `{∀ x, Decision (Q x)}
    (l : list A) :
  (∀ x, x ∈ l → (P x ↔ Q x)) → filter P l = filter Q l.
Proof.
  induction l as [|x l IH]; intros Hiff; [done|].
  rewrite !filter_cons.
  rewrite IH by (intros y Hy; apply Hiff; by right).
  destruct (decide (P x)) as [HP|HP], (decide (Q x)) as [HQ|HQ]; try done.
  - exfalso. apply HQ. by apply (Hiff x ltac:(left)).
  - exfalso. apply HP. by apply (Hiff x ltac:(left)).
Qed.

(** The flag [is_profit] of a row is the test [profit > 0]. *)
Lemma is_profit_profitable (df : list Trade.t) (p : Position.t) :
  p ∈ calculate_position_times df →
  (Position.is_profit p = true ↔ profitable p).
Proof.
  intros Hp. apply elem_of_calculate_position_times in Hp as (pid & _ & Hrow).
  unfold position_row in Hrow.
  destruct (head _) as [open_trade|]; [|done].
  destruct (last _) as [close_trade|]; [|done].
  destruct (classify_close close_trade) as [[ref kind] slip].
  destruct (series_min _) as [open_time|]; [|done].
  destruct (series_max _) as [close_time|]; [|done].
  injection Hrow as <-. unfold profitable. simpl. apply Qgtb_true.
Qed.

Lemma ratios_of_group (group : list Position.t) :
  Forall (λ p, 0 <= Position.price_change p)%Q group →
  (∀ p, p ∈ group → (Position.is_profit p = true ↔ profitable p)) →
  ∃ w, win_rate_of group = Ok w
       ∧ ratios_as_specified group w
           (avg_points (profit_trades group)) (avg_points (loss_trades group))
           (ratio_of (avg_points (profit_trades group))
                     (avg_points (loss_trades group))).
Proof.
  intros Hpos Hflag.
  assert (profit_trades group = filter profitable group) as Hwins.
  { unfold profit_trades. by apply filter_ext_in. }
  assert (loss_trades group = filter (λ p, ¬ profitable p) group) as Hlosses.
  { unfold loss_trades. apply filter_ext_in. intros p Hp.
    by rewrite (Hflag p Hp). }
  destruct (win_rate_of_spec group) as (w & Hw & Hweq & Hwb).
  exists w. split; [done|]. unfold ratios_as_specified.
  rewrite <- Hwins, <- Hlosses.
  split; [done|]. split; [done|].
  destruct (avg_points_spec (profit_trades group)) as (a & -> & Ha & Ha0).
  { unfold profit_trades. by apply Forall_filter_sub. }
  destruct (avg_points_spec (loss_trades group)) as (l & -> & Hl & Hl0).
  { unfold loss_trades. by apply Forall_filter_sub. }
  destruct (ratio_of_spec a l Ha0) as (r & -> & Hr1 & Hr2 & Hr0).
  exists a, l, r. repeat split; try done.
  intros [Hnil|Hz]; apply Hr2.
  - rewrite Hl, Hnil. unfold mean_price_change. simpl. lra.
  - lra.
Qed.

Lemma price_change_nonneg (df : list Trade.t) (p : Position.t) :
  p ∈ calculate_position_times df → (0 <= Position.price_change p)%Q.
Proof.
  intros Hp. apply elem_of_calculate_position_times in Hp as (pid & _ & Hrow).
  apply position_row_inv in Hrow
    as (? & ? & ? & ? & _ & _ & _ & _ & _ & _ & _ & _ & _ & _ & _ & _ & _ & _ & ->).
  apply Qabs_nonneg.
Qed.

(** The groups of either grouping consist of rows of the grouped table. *)
Lemma elem_of_groupby {K} `{EqDecision K} (le : relation K) `{RelDecision K K le}
    (key : Position.t → K) (rows : list Position.t) (k : K)
    (group : list Position.t) (p : Position.t) :
  (k, group) ∈ groupby le key rows → p ∈ group → p ∈ rows ∧ key p = k.
Proof.
  unfold groupby. intros Hg Hp.
  apply list_elem_of_fmap in Hg as (k' & [= -> ->] & _).
  apply list_elem_of_filter in Hp. tauto.
Qed.

(** C8. For every group of closed positions, whether of one (date, symbol)
    or of one date, with the profitable trades being those of positive
    profit and the losing trades the others: the win rate is
    profitable_count / total_count * 100, and 0 for an empty group, so that
    it lies between 0 and 100; the profit/loss ratio is the mean price change
    of the profitable trades divided by the mean price change of the losing
    trades when the latter is positive, and 0 when there is no losing trade
    or their mean is 0, so that it is never negative; each mean over no trade
    counts as 0; every result is a finite number and no exception is raised,
    so no division by zero occurs. *)
Theorem win_rate_and_ratio_guarded
    (df : list Trade.t) (group : list Position.t) (key : Z * string) (date : Z) :
  (∀ p, p ∈ group → p ∈ calculate_position_times df) →
  (∃ s, symbol_stats key group = Ok s
        ∧ ratios_as_specified group (Stats.win_rate s)
            (Stats.avg_profit_points s) (Stats.avg_loss_points s)
            (Stats.profit_loss_ratio s))
  ∧ (∃ s, day_summary date group = Ok s
          ∧ ratios_as_specified group (Summary.win_rate s)
              (Summary.avg_profit_points s) (Summary.avg_loss_points s)
              (Summary.profit_loss_ratio s)).
Proof.
  intros Hsub.
  assert (Forall (λ p, 0 <= Position.price_change p)%Q group) as Hpos.
  { apply Forall_forall. intros p Hp. eapply price_change_nonneg. eauto. }
  assert (∀ p, p ∈ group → (Position.is_profit p = true ↔ profitable p)) as Hflag.
  { intros p Hp. eapply is_profit_profitable. eauto. }
  destruct (ratios_of_group group Hpos Hflag) as (w & Hw & Hspec).
  unfold symbol_stats, day_summary. rewrite Hw. simpl.
  split; eexists; (split; [reflexivity|]); exact Hspec.
Qed.

Lemma win_rate_and_ratio_guarded_witness :
  ∃ s, symbol_stats (0%Z, "EURUSD") (calculate_position_times scenario_two_deals) = Ok s
       ∧ (0 <= Stats.win_rate s <= 100)%Q.
Proof.
  destruct (win_rate_and_ratio_guarded scenario_two_deals
              (calculate_position_times scenario_two_deals) (0%Z, "EURUSD") 0%Z
              (λ p H, H)) as [(s & Hs & Hspec) _].
  exists s. split; [exact Hs|]. apply Hspec.
Defined.

(** ** Drawdown *)

Lemma equity_run_lookup (pts : list Position.t) (bal : list Deal.t)
    (st0 : Equity.t) (dates : list Z) (i : nat) (st' : Equity.t) :
  equity_run pts bal st0 dates !! i = Some st' →
  ∃ st date, dates !! i = Some date ∧ st' = equity_step pts bal st date.
Proof.
  revert st0 i. induction dates as [|date dates IH]; intros st0 i H; [done|].
  destruct i as [|i].
  - injection H as <-. by exists st0, date.
  - simpl in H. apply IH in H. done.
Qed.

(** The baseline after the update is never below the current equity unless
    the day brought a deposit. *)
Lemma update_max_equity_ge (mx : npfloat) (cur dbc m : Q) :
  update_max_equity mx cur dbc = Fin m → (dbc <= 0)%Q → (cur <= m)%Q.
Proof.
  unfold update_max_equity, py_max. intros H Hd.
  destruct (Qgeb dbc 0) eqn:E.
  - apply Qgeb_true in E.
    destruct (np_gtb _ mx) eqn:G.
    + injection H as <-. lra.
    + subst mx. simpl in G. apply Qgtb_false in G. lra.
  - destruct (np_gtb _ _) eqn:G.
    + injection H as <-. lra.
    + rewrite H in G. simpl in G. by apply Qgtb_false in G.
Qed.

Lemma drawdown_of_finite (m cur : Q) :
  (0 < m)%Q →
  ∃ d, drawdown_of (Fin m) cur = Fin d
       ∧ (d == (m - cur) / m * 100)%Q
       ∧ (0 <= cur → d <= 100)%Q
       ∧ (cur <= m → 0 <= d)%Q.
Proof.
  intros Hm. unfold drawdown_of, np_sub.
  rewrite np_div_pos by done. rewrite np_mul_pos_r by reflexivity.
  eexists. split; [reflexivity|]. split; [reflexivity|].
  split; intros Hc.
  - assert ((m - cur) / m <= 1)%Q by (apply Qle_shift_div_r; lra). lra.
  - assert (0 <= (m - cur) / m)%Q by (apply Qle_shift_div_l; lra). lra.
Qed.

(** C2, as amended. On every day of the recurrence on which the baseline is
    a finite positive number, the drawdown is
    (baseline - equity) / baseline * 100; it is at most 100 when the equity
    is not negative, and it is not negative when the day's balance change is
    not a deposit. (A baseline of +inf, which the rescaling can produce,
    also compares greater than 0; the drawdown is then nan.) *)
Theorem drawdown_formula_and_bounds
    (position_times : list Position.t) (balance_df : list Deal.t)
    (i : nat) (st : Equity.t) (m : Q) :
  drawdown_states position_times balance_df !! i = Some st →
  Equity.max_equity st = Fin m →
  (0 < m)%Q →
  ∃ date d,
    all_dates (sort_values_close_time position_times) balance_df !! i = Some date
    ∧ Equity.drawdown st = Fin d
    ∧ (d == (m - Equity.current_equity st) / m * 100)%Q
    ∧ (0 <= Equity.current_equity st → d <= 100)%Q
    ∧ (daily_balance_change balance_df date <= 0 → 0 <= d)%Q.
Proof.
  intros Hst Hmax Hm. unfold drawdown_states in Hst.
  apply equity_run_lookup in Hst as (st0 & date & Hdate & ->).
  unfold equity_step, equity_update in *. simpl in *.
  set (dbc := daily_balance_change balance_df date) in *.
  set (cur := (Equity.current_equity st0 + _)%Q) in *.
  rewrite Hmax.
  destruct (drawdown_of_finite m cur Hm) as (d & Hd & Heq & Hup & Hlo).
  exists date, d. repeat split; try done.
  intros Hdbc. apply Hlo. exact (update_max_equity_ge _ _ _ _ Hmax Hdbc).
Qed.

Lemma drawdown_formula_and_bounds_witness :
  ∃ d, Equity.drawdown <$> drawdown_states (positions_of scenario_deposit)
                              (balance_of scenario_deposit) !! 1%nat = Some (Fin d)
       ∧ (0 <= d <= 100)%Q.
Proof.
  edestruct (drawdown_formula_and_bounds (positions_of scenario_deposit)
               (balance_of scenario_deposit) 1)
    as (date & d & Hdate & Hd & _ & Hup & Hlo).
  - reflexivity.
  - vm_compute. reflexivity.
  - vm_compute. reflexivity.
  - exists d. split; [by rewrite <- Hd|].
    injection Hdate as <-.
    split; [apply Hlo|apply Hup]; vm_compute; discriminate.
Defined.

(** C2 as first stated fails on the bounds. On the day of a deposit the
    baseline leaves the deposit out, so the equity exceeds it and the
    drawdown is negative: here the baseline is 10000 and the drawdown -5.
    After a loss larger than the equity the drawdown exceeds 100: here the
    baseline is 10000 and the drawdown 200. *)
Lemma drawdown_outside_bounds :
  (∃ st m d,
     drawdown_states (positions_of scenario_deposit)
                     (balance_of scenario_deposit) !! 0%nat = Some st
     ∧ Equity.max_equity st = Fin m ∧ (0 < m)%Q
     ∧ Equity.drawdown st = Fin d ∧ (d == -5)%Q ∧ ¬ (0 <= d)%Q)
  ∧ (∃ st m d,
       drawdown_states (positions_of scenario_large_loss)
                       (balance_of scenario_large_loss) !! 0%nat = Some st
       ∧ Equity.max_equity st = Fin m ∧ (0 < m)%Q
       ∧ Equity.drawdown st = Fin d ∧ (d == 200)%Q ∧ ¬ (d <= 100)%Q).
Proof.
  split; eexists _, _, _; repeat split; try reflexivity; vm_compute; congruence.
Qed.

(** The baseline can reach 0, and the drawdown is then computed as 0/0: after
    a withdrawal of the whole equity the day's drawdown is nan, not 0. *)
Lemma drawdown_nan_on_zero_baseline :
  ∃ st, drawdown_states (positions_of scenario_withdraw_all)
                        (balance_of scenario_withdraw_all) !! 0%nat = Some st
        ∧ np_eq (Equity.max_equity st) (Fin 0)
        ∧ Equity.drawdown st = NaN.
Proof. eexists. split; [reflexivity|]. split; vm_compute; reflexivity. Qed.

(** ** The rescaling of the baseline on a withdrawal *)

(** On a withdrawal that leaves [current_equity - daily_balance_change] at
    zero the quotient is evaluated all the same and is -inf: the update has no
    case for the zero divisor. *)
Lemma update_max_equity_zero_divisor (max_equity : npfloat) (current_equity dbc : Q) :
  (dbc < 0)%Q → (current_equity - dbc == 0)%Q →
  np_div (Fin current_equity) (Fin (current_equity - dbc)) = NInf
  ∧ update_max_equity max_equity current_equity dbc
    = py_max (np_mul max_equity NInf) (Fin current_equity).
Proof.
  intros Hneg Hzero.
  assert (np_div (Fin current_equity) (Fin (current_equity - dbc)) = NInf) as Hdiv.
  { unfold np_div.
    assert (Qeq_bool (current_equity - dbc) 0 = true) as -> by (by apply Qeq_bool_iff).
    assert (current_equity < 0)%Q as Hc by lra.
    destruct (current_equity ?= 0)%Q eqn:E; [|done|].
    - apply Qeq_alt in E. lra.
    - apply Qgt_alt in E. lra. }
  split; [done|]. unfold update_max_equity.
  assert (Qgeb dbc 0 = false) as -> by (by apply Qgeb_false).
  by rewrite Hdiv.
Qed.

(** C1, the code at the failing input. On day 2 the equity before the
    withdrawal of 500 is 0, so [current_equity - daily_balance_change] is 0
    with [current_equity] = -500. The division is carried out: the rescaled
    baseline is +inf instead of the current equity, and the day's drawdown is
    nan. *)
Lemma withdrawal_rescaling_divides_by_zero :
  let balance_df := balance_of scenario_zero_divisor in
  ∃ st0 st,
    drawdown_states (positions_of scenario_zero_divisor) balance_df
      = [st0; st]
    ∧ (daily_balance_change balance_df 2 == -500)%Q
    ∧ (Equity.current_equity st == -500)%Q
    ∧ (Equity.current_equity st - daily_balance_change balance_df 2 == 0)%Q
    ∧ np_eq (Equity.max_equity st0) (Fin (-10000))
    ∧ Equity.max_equity st = PInf
    ∧ Equity.max_equity st ≠ Fin (Equity.current_equity st)
    ∧ Equity.drawdown st = NaN.
Proof.
  eexists _, _. split; [reflexivity|].
  repeat split; try (vm_compute; reflexivity). vm_compute. discriminate.
Qed.

(** ** The entry points when there is no data *)

(** Whenever [get_trades_history] returns [None], the unpacking in [main]
    raises and nothing catches it. *)
Lemma main_raises_on_None (feed : Feed.t) :
  Feed.initialize feed = true →
  get_trades_history (Feed.deals feed) (Feed.account_history feed)
    (Feed.orders feed) = None →
  main feed = Raise (TypeError "cannot unpack non-iterable NoneType object").
Proof.
  intros Hinit Hnone. unfold main, unpack_history. rewrite Hinit, Hnone. done.
Qed.

(** In [run_analysis] the handler of [Exception] catches it: the task fails
    with the text of the TypeError, the branch for "No trade data found" is
    not the one taken. *)
Lemma run_analysis_on_None (tasks : gmap string Task.t) (task_id now : string)
    (feed : Feed.t) :
  Feed.initialize feed = true →
  get_trades_history (Feed.deals feed) (Feed.account_history feed)
    (Feed.orders feed) = None →
  run_analysis tasks task_id now feed !! task_id
  = Some (task_failed "cannot unpack non-iterable NoneType object" now).
Proof.
  intros Hinit Hnone. unfold run_analysis, run_analysis_body, unpack_history.
  rewrite Hinit, Hnone. simpl. by rewrite lookup_insert_eq.
Qed.

(** C3, the code at the failing inputs. For a feed without deals, and for a
    feed whose only position has a single deal, [get_trades_history] returns
    [None]; [main] then ends with a TypeError, and [run_analysis] records the
    task as failed with the message of that TypeError. *)
Lemma no_data_raises_TypeError :
  let e := TypeError "cannot unpack non-iterable NoneType object" in
  main scenario_empty = Raise e
  ∧ main scenario_lone_deal = Raise e
  ∧ run_analysis ∅ "job" "now" scenario_empty !! "job"
    = Some (task_failed (exn_str e) "now")
  ∧ run_analysis ∅ "job" "now" scenario_lone_deal !! "job"
    = Some (task_failed (exn_str e) "now")
  ∧ task_failed (exn_str e) "now" ≠ task_failed "No trade data found" "now".
Proof.
  repeat split; try (vm_compute; reflexivity). vm_compute. discriminate.
Qed.

(** * Further properties *)

(** ** [get_trades_history]: which deals are kept *)

Lemma length_rows_of_attach (d : gmap Z SlTp.t) (ds : list Deal.t) (pid : Z) :
  length (rows_of pid (map (attach_sl_tp d) ds))
  = length (filter (λ x, Deal.position_id x = pid) ds).
Proof.
  unfold rows_of. induction ds as [|x ds IH]; [done|].
  simpl. rewrite !filter_cons. unfold Trade.position_id at 1. simpl.
  destruct (decide (Deal.position_id x = pid)); simpl; by rewrite IH.
Qed.

Lemma map_deal_attach (d : gmap Z SlTp.t) (ds : list Deal.t) :
  map Trade.deal (map (attach_sl_tp d) ds) = ds.
Proof. induction ds as [|x ds IH]; [done|]. simpl. by rewrite IH. Qed.

Lemma map_deal_filter (P : Deal.t → Prop) `{∀ x, Decision (P x)} (df : list Trade.t) :
  map Trade.deal (filter (λ r, P (Trade.deal r)) df) = filter P (map Trade.deal df).
Proof.
  induction df as [|r df IH]; [done|].
  simpl. rewrite !filter_cons. destruct (decide (P (Trade.deal r))); simpl; by rewrite IH.
Qed.

Lemma keep_completed_attach (d : gmap Z SlTp.t) (ds : list Deal.t) :
  map Trade.deal (keep_completed (map (attach_sl_tp d) ds))
  = filter (λ x, 2 ≤ group_size ds (Deal.position_id x)) ds.
Proof.
  unfold keep_completed.
  etrans; [|etrans;
    [apply (map_deal_filter (λ x, 2 ≤ group_size ds (Deal.position_id x)))
    |by rewrite map_deal_attach]].
  f_equal. apply list_filter_iff. intros r.
  rewrite elem_of_completed_positions, length_rows_of_attach. done.
Qed.

(** X1. [get_trades_history] returns [None] exactly when the terminal
    returned no deal tuple, or no position id occurs on two deals or more. *)
Theorem get_trades_history_None_iff
    (deals account_history : option (list Deal.t)) (orders : option (list Order.t)) :
  get_trades_history deals account_history orders = None ↔
    deals = None
    ∨ ∃ ds, deals = Some ds ∧ ∀ pid, group_size ds pid < 2.
Proof.
  unfold get_trades_history. destruct deals as [ds|]; [|split; [by left|done]].
  set (d := build_orders_dict orders).
  pose proof (keep_completed_attach d ds) as Hkeep.
  destruct (decide _) as [Hlen|Hlen].
  - split; [|done]. intros _. right. exists ds. split; [done|]. intros pid.
    apply nil_length_inv in Hlen. rewrite Hlen in Hkeep. simpl in Hkeep.
    destruct (decide (group_size ds pid < 2)) as [|Hge]; [done|]. exfalso.
    unfold group_size in Hge.
    destruct (filter (λ x, Deal.position_id x = pid) ds) as [|x rest] eqn:E;
      [simpl in Hge; lia|].
    assert (x ∈ filter (λ x, Deal.position_id x = pid) ds) as Hx by (rewrite E; left).
    apply list_elem_of_filter in Hx as [Hpid Hx].
    assert (x ∈ filter (λ x, 2 ≤ group_size ds (Deal.position_id x)) ds) as Hin.
    { apply list_elem_of_filter. split; [|done].
      unfold group_size. rewrite Hpid, E. simpl in *. lia. }
    rewrite <- Hkeep in Hin. inversion Hin.
  - split; [done|]. intros [|(ds' & [= <-] & Hsmall)]; [done|]. exfalso.
    apply Hlen.
    destruct (keep_completed (map (attach_sl_tp d) ds)) as [|r rest] eqn:E; [done|].
    assert (Trade.deal r ∈ filter (λ x, 2 ≤ group_size ds (Deal.position_id x)) ds)
      as Hin by (rewrite <- Hkeep; left).
    apply list_elem_of_filter in Hin as [Hge _].
    specialize (Hsmall (Deal.position_id (Trade.deal r))). lia.
Qed.

(** X2. When [get_trades_history] returns a table, its rows are, in feed
    order, exactly the deals whose position id occurs on two deals or more;
    every row carries the resolved stop-loss and take-profit of its position,
    and every position of the table has at least two rows in it. *)
Theorem get_trades_history_rows
    (ds : list Deal.t) (account_history : option (list Deal.t))
    (orders : option (list Order.t)) (df : list Trade.t) (balance_df : list Deal.t) :
  get_trades_history (Some ds) account_history orders = Some (df, balance_df) →
  map Trade.deal df = filter (λ x, 2 ≤ group_size ds (Deal.position_id x)) ds
  ∧ (∀ r, r ∈ df →
       r = attach_sl_tp (build_orders_dict orders) (Trade.deal r)
       ∧ 2 ≤ length (rows_of (Trade.position_id r) df))
  ∧ balance_df = make_balance_df account_history.
Proof.
  unfold get_trades_history. destruct (decide _) as [|Hlen]; [done|].
  intros [= <- <-]. split; [apply keep_completed_attach|]. split; [|done].
  intros r Hr. pose proof Hr as Hr'.
  apply elem_of_keep_completed, list_elem_of_fmap in Hr as (x & -> & _).
  split; [done|].
  rewrite rows_of_keep_completed.
  unfold keep_completed in Hr'. apply list_elem_of_filter in Hr' as [Hc _].
  apply elem_of_completed_positions in Hc. by rewrite decide_True.
Qed.

Lemma get_trades_history_rows_witness :
  ∃ df balance_df,
    get_trades_history (Some (balance_deal 50 500 :: round_trip 100 7 50)) None None
      = Some (df, balance_df)
    ∧ map Trade.deal df = round_trip 100 7 50.
Proof.
  eexists _, _. split; [reflexivity|].
  edestruct (get_trades_history_rows (balance_deal 50 500 :: round_trip 100 7 50)
               None None) as (Hrows & _).
  - reflexivity.
  - rewrite Hrows. reflexivity.
Defined.

(** ** Positions without stop-loss and take-profit *)

Lemma last_nonzero_all_zero (vs : list Q) :
  Forall (λ v, v == 0)%Q vs → last_nonzero vs = None.
Proof.
  intros Hall. unfold last_nonzero.
  destruct (filter _ vs) as [|v rest] eqn:E; [done|].
  assert (v ∈ filter (λ v, Qnonzero v = true) vs) as Hv by (rewrite E; left).
  apply list_elem_of_filter in Hv as [Hnz Hv].
  rewrite Forall_forall in Hall. apply Qnonzero_true in Hnz.
  exfalso. apply Hnz. by apply Hall.
Qed.

Lemma resolved_not_set (field : Order.t → Q) (os : list Order.t) (pid : Z) :
  Forall (λ o, field o == 0)%Q (orders_of pid os) →
  ¬ is_set (resolved field os pid).
Proof.
  intros Hall (x & Hx & Hnz). unfold resolved in Hx.
  rewrite last_nonzero_all_zero in Hx by (by apply Forall_fmap).
  destruct (orders_of pid os) as [|o rest]; [done|].
  injection Hx as <-. apply Hnz. by inversion Hall.
Qed.

(** X3. When no order of a position carries a non-zero stop-loss or a
    non-zero take-profit (in particular when the position has no order, or
    the terminal returned no orders at all), the closed position built for it
    is a market close: no reference price, no recorded stop-loss or
    take-profit, slippage 0. *)
Theorem position_without_levels_is_market
    (ds : list Deal.t) (account_history : option (list Deal.t))
    (orders : option (list Order.t)) (df : list Trade.t) (balance_df : list Deal.t)
    (p : Position.t) :
  get_trades_history (Some ds) account_history orders = Some (df, balance_df) →
  p ∈ calculate_position_times df →
  Forall (λ o, Order.sl o == 0 ∧ Order.tp o == 0)%Q
         (orders_of (Position.position_id p) (default [] orders)) →
  Position.close_type p = by_market
  ∧ Position.sl_tp_price p = None
  ∧ Position.slippage p = 0%Q.
Proof.
  intros Hget Hp Hall.
  unfold get_trades_history in Hget. destruct (decide _) as [|Hlen]; [done|].
  injection Hget as <- _.
  apply elem_of_calculate_position_times in Hp as (pid & _ & Hrow).
  pose proof (position_row_id _ _ _ Hrow) as Hid. rewrite Hid in Hall.
  apply position_row_close_trade in Hrow as (ct & Hin & Hpid & _ & _ & Hk).
  apply elem_of_keep_completed, list_elem_of_fmap in Hin as (x & -> & _).
  unfold Trade.position_id in Hpid. simpl in Hpid.
  assert (build_orders_dict orders = foldl orders_dict_step ∅ (default [] orders))
    as Hd by (destruct orders; done).
  destruct (orders_dict_lookup (default [] orders) pid) as [Hs Ht].
  pose proof (classify_close_spec (attach_sl_tp (build_orders_dict orders) x)) as Hspec.
  simpl in Hspec. rewrite <- Hk in Hspec.
  destruct Hspec as (_ & _ & Hmarket & _).
  apply Hmarket; simpl; rewrite Hd, Hpid.
  - rewrite Hs. apply resolved_not_set.
    eapply Forall_impl; [exact Hall|]. by intros o [? _].
  - rewrite Ht. apply resolved_not_set.
    eapply Forall_impl; [exact Hall|]. by intros o [_ ?].
Qed.

Lemma position_without_levels_is_market_witness :
  ∃ p, p ∈ positions_of (feed_of (round_trip 100 7 50))
       ∧ Position.close_type p = by_market ∧ Position.slippage p = 0%Q.
Proof.
  eexists. split; [left|].
  edestruct (position_without_levels_is_market (round_trip 100 7 50)
               (Some (round_trip 100 7 50)) (Some [])) as (Hk & _ & Hs).
  - reflexivity.
  - left.
  - constructor.
  - split; [exact Hk|exact Hs].
Defined.

(** ** [calculate_position_times]: one row per position, from which deals *)

Lemma sublist_omap_ids (f : Z → option Position.t) (l : list Z) :
  (∀ y p, f y = Some p → Position.position_id p = y) →
  map Position.position_id (omap f l) `sublist_of` l.
Proof.
  intros Hid. induction l as [|y l IH]; [done|].
  change (omap f (y :: l))
    with (match f y with Some p => p :: omap f l | None => omap f l end).
  destruct (f y) as [p|] eqn:E.
  - simpl. rewrite (Hid _ _ E). by apply sublist_skip.
  - by apply sublist_cons.
Qed.

(** X4. The position ids of the rows of [calculate_position_times] form a
    subsequence of the distinct position ids of the deal table in order of
    first appearance: no position has two rows, and the rows keep the order
    in which the positions first appear. *)
Theorem closed_positions_ids (df : list Trade.t) :
  map Position.position_id (calculate_position_times df)
    `sublist_of` unique (map Trade.position_id df)
  ∧ NoDup (map Position.position_id (calculate_position_times df))
  ∧ length (calculate_position_times df) ≤ length (unique (map Trade.position_id df)).
Proof.
  assert (map Position.position_id (calculate_position_times df)
            `sublist_of` unique (map Trade.position_id df)) as Hsub.
  { apply sublist_omap_ids, position_row_id. }
  split; [done|]. split.
  - eapply sublist_NoDup; [apply NoDup_unique|done].
  - apply sublist_length in Hsub. by rewrite length_map in Hsub.
Qed.

#[global] Instance time_le_trans : Transitive time_le.
Proof. intros a b c. unfold time_le. lia. Qed.

#[global] Instance time_le_total : Total time_le.
Proof. intros a b. unfold time_le. lia. Qed.

Lemma sort_values_time_sorted (rows : list Trade.t) :
  StronglySorted time_le (sort_values_time rows).
Proof. apply StronglySorted_stable_sort; apply _. Qed.

(** The open record is a row that no IN row precedes in the sorted group, the
    close record one that no OUT row follows. *)
Lemma position_row_records (df : list Trade.t) (pid : Z) (p : Position.t) :
  position_row df pid = Some p →
  ∃ open_trade close_trade,
    head (filter (λ r, Trade.entry r = DEAL_ENTRY_IN)
            (sort_values_time (rows_of pid df))) = Some open_trade
    ∧ last (filter (λ r, Trade.entry r = DEAL_ENTRY_OUT)
              (sort_values_time (rows_of pid df))) = Some close_trade
    ∧ Position.symbol p = Deal.symbol (Trade.deal open_trade)
    ∧ Position.volume p = Deal.volume (Trade.deal open_trade)
    ∧ Position.type p = Deal.type (Trade.deal open_trade)
    ∧ Position.open_price p = Deal.price (Trade.deal open_trade)
    ∧ Position.close_price p = Deal.price (Trade.deal close_trade).
Proof.
  intros H. unfold position_row in H.
  destruct (head _) as [open_trade|] eqn:Ho; [|done].
  destruct (last _) as [close_trade|] eqn:Hc; [|done].
  destruct (classify_close close_trade) as [[ref kind] slip].
  destruct (series_min _) as [open_time|]; [|done].
  destruct (series_max _) as [close_time|]; [|done].
  injection H as <-. by exists open_trade, close_trade.
Qed.

(** X5. The symbol, volume, direction and open price of a closed position
    are those of an IN deal of its group that is no later than any IN deal of
    the group; its close price is that of an OUT deal of the group that is no
    earlier than any OUT deal of the group. *)
Theorem open_and_close_records (df : list Trade.t) (p : Position.t) :
  p ∈ calculate_position_times df →
  let group := rows_of (Position.position_id p) df in
  ∃ open_trade close_trade,
    open_trade ∈ group ∧ Trade.entry open_trade = DEAL_ENTRY_IN
    ∧ (∀ r, r ∈ group → Trade.entry r = DEAL_ENTRY_IN →
         (Trade.time open_trade ≤ Trade.time r)%Z)
    ∧ close_trade ∈ group ∧ Trade.entry close_trade = DEAL_ENTRY_OUT
    ∧ (∀ r, r ∈ group → Trade.entry r = DEAL_ENTRY_OUT →
         (Trade.time r ≤ Trade.time close_trade)%Z)
    ∧ Position.symbol p = Deal.symbol (Trade.deal open_trade)
    ∧ Position.volume p = Deal.volume (Trade.deal open_trade)
    ∧ Position.type p = Deal.type (Trade.deal open_trade)
    ∧ Position.open_price p = Deal.price (Trade.deal open_trade)
    ∧ Position.close_price p = Deal.price (Trade.deal close_trade).
Proof.
  intros Hp group. apply elem_of_calculate_position_times in Hp as (pid & _ & Hrow).
  pose proof (position_row_id _ _ _ Hrow) as Hid. subst group. rewrite Hid.
  apply position_row_records in Hrow
    as (ot & ct & Ho & Hc & Hsym & Hvol & Hty & Hop & Hcp).
  pose proof (sort_values_time_sorted (rows_of pid df)) as Hsorted.
  pose proof (sort_values_time_Permutation (rows_of pid df)) as Hperm.
  exists ot, ct.
  pose proof (head_Some_elem_of _ _ Ho) as Ho'.
  apply list_elem_of_filter in Ho' as [Eo Hoin].
  pose proof (last_Some_elem_of _ _ Hc) as Hc'.
  apply list_elem_of_filter in Hc' as [Ec Hcin].
  apply head_filter_Some in Ho as (l1 & l2 & Hsplit & Hnone).
  apply last_filter_Some in Hc as (k1 & k2 & Hsplit' & Hnone').
  repeat split; try done.
  - by rewrite <- Hperm.
  - intros r Hr Er. rewrite <- Hperm, Hsplit in Hr.
    apply elem_of_app in Hr as [Hr|Hr].
    + rewrite Forall_forall in Hnone. by apply Hnone in Hr.
    + apply elem_of_cons in Hr as [->|Hr]; [lia|].
      rewrite Hsplit in Hsorted. apply StronglySorted_app_1_r in Hsorted.
      apply StronglySorted_inv in Hsorted as [_ Hall].
      rewrite Forall_forall in Hall. by apply Hall.
  - by rewrite <- Hperm.
  - intros r Hr Er. rewrite <- Hperm, Hsplit' in Hr.
    apply elem_of_app in Hr as [Hr|Hr].
    + rewrite Hsplit' in Hsorted.
      apply (StronglySorted_app_1_elem_of _ _ _ r ct) in Hsorted; [done|done|left].
    + apply elem_of_cons in Hr as [->|Hr]; [lia|].
      rewrite Forall_forall in Hnone'. by apply Hnone' in Hr.
Qed.

Lemma open_and_close_records_witness :
  ∃ p open_trade close_trade,
    p ∈ calculate_position_times scenario_out_first
    ∧ Trade.entry open_trade = DEAL_ENTRY_IN
    ∧ Position.open_price p = Deal.price (Trade.deal open_trade)
    ∧ Trade.entry close_trade = DEAL_ENTRY_OUT
    ∧ Position.close_price p = Deal.price (Trade.deal close_trade).
Proof.
  assert (∃ p, p ∈ calculate_position_times scenario_out_first) as (p & Hp)
    by (eexists; left).
  destruct (open_and_close_records scenario_out_first p Hp)
    as (ot & ct & _ & Ein & _ & _ & Eout & _ & _ & _ & _ & Hopen & Hclose).
  by exists p, ot, ct.
Defined.

(** ** Grouping is a partition *)

Lemma filter_elem_of_cons_Permutation {A K} `{EqDecision K} (key : A → K)
    (k : K) (ks : list K) (l : list A) :
  k ∉ ks →
  filter (λ x, key x ∈ k :: ks) l
  ≡ₚ filter (λ x, key x = k) l ++ filter (λ x, key x ∈ ks) l.
Proof.
  intros Hk. induction l as [|x l IH]; [done|].
  rewrite !filter_cons.
  destruct (decide (key x = k)) as [Hx|Hx].
  - rewrite decide_True by (rewrite Hx; left).
    rewrite decide_False by (by rewrite Hx).
    simpl. by rewrite IH.
  - destruct (decide (key x ∈ ks)) as [Hin|Hin].
    + rewrite decide_True by (by right).
      rewrite IH. apply Permutation_middle.
    + rewrite decide_False; [done|]. rewrite elem_of_cons. tauto.
Qed.

Lemma groups_Permutation {A K} `{EqDecision K} (key : A → K)
    (ks : list K) (l : list A) :
  NoDup ks → (∀ x, x ∈ l → key x ∈ ks) →
  concat (map (λ k, filter (λ x, key x = k) l) ks) ≡ₚ l.
Proof.
  intros Hnd Hall.
  assert (concat (map (λ k, filter (λ x, key x = k) l) ks)
          ≡ₚ filter (λ x, key x ∈ ks) l) as ->.
  { clear Hall. induction Hnd as [|k ks Hk Hnd IH].
    - simpl. induction l as [|x l IHl]; [done|].
      rewrite filter_cons, decide_False; [done|]. apply not_elem_of_nil.
    - simpl. rewrite IH. by rewrite filter_elem_of_cons_Permutation. }
  induction l as [|x l IH]; [done|].
  rewrite filter_cons, decide_True by (apply Hall; left).
  rewrite IH; [done|]. intros y Hy. apply Hall. by right.
Qed.

Lemma Qsum_map_ext {A} (f g : A → Q) (l : list A) :
  (∀ x, x ∈ l → f x == g x)%Q → (Qsum (map f l) == Qsum (map g l))%Q.
Proof.
  induction l as [|x l IH]; intros H; [reflexivity|].
  rewrite !map_cons, !Qsum_cons.
  rewrite IH by (intros y Hy; apply H; by right).
  rewrite (H x) by left. reflexivity.
Qed.

(** The sums over the groups of a partition add up to the sum over the
    whole. *)
Lemma Qsum_groups {A K} `{EqDecision K} (key : A → K) (f : A → Q)
    (ks : list K) (l : list A) :
  NoDup ks → (∀ x, x ∈ l → key x ∈ ks) →
  (Qsum (map (λ k, Qsum (map f (filter (λ x, key x = k) l))) ks)
   == Qsum (map f l))%Q.
Proof.
  intros Hnd Hall.
  rewrite <- (Qsum_map_Permutation f _ _ (groups_Permutation key ks l Hnd Hall)).
  clear. induction ks as [|k ks IH]; [reflexivity|].
  rewrite !map_cons, concat_cons, map_app, Qsum_app, Qsum_cons, IH. reflexivity.
Qed.

(** ** The equity curve *)

Lemma daily_balance_change_sum (bal : list Deal.t) (date : Z) :
  (daily_balance_change bal date
   == Qsum (map Deal.profit (filter (λ x, balance_date x = date) bal)))%Q.
Proof.
  unfold daily_balance_change, daily_balance.
  destruct (decide (bal = [])) as [->|Hne].
  - rewrite decide_True by done. reflexivity.
  - destruct (decide (filter _ bal = [])) as [->|_]; reflexivity.
Qed.

Lemma daily_trading_profit_sum (pts : list Position.t) (date : Z) :
  (daily_trading_profit pts date
   == Qsum (map Position.total_profit (filter (λ p, Position.date p = date) pts)))%Q.
Proof.
  unfold daily_trading_profit, daily_trades.
  destruct (decide (filter _ pts = [])) as [->|_]; reflexivity.
Qed.

Lemma last_cons_default {A} (x d : A) (l : list A) :
  List.last (x :: l) d = List.last l x.
Proof.
  revert x d. induction l as [|y l IH]; intros x d; [done|].
  change (List.last (x :: y :: l) d) with (List.last (y :: l) d).
  rewrite (IH y d). symmetry. apply IH.
Qed.

Lemma equity_run_final (pts : list Position.t) (bal : list Deal.t)
    (st : Equity.t) (dates : list Z) :
  (Equity.current_equity (List.last (equity_run pts bal st dates) st)
   == Equity.current_equity st
      + Qsum (map (λ d, daily_balance_change bal d + daily_trading_profit pts d) dates))%Q.
Proof.
  revert st. induction dates as [|date dates IH]; intros st.
  - change (Equity.current_equity st == Equity.current_equity st + 0)%Q. lra.
  - change (equity_run pts bal st (date :: dates))
      with (equity_step pts bal st date
            :: equity_run pts bal (equity_step pts bal st date) dates).
    rewrite last_cons_default, IH, map_cons, Qsum_cons.
    unfold equity_step, equity_update. simpl. lra.
Qed.

Lemma Qsum_map_plus {A} (f g : A → Q) (l : list A) :
  (Qsum (map (λ x, f x + g x) l) == Qsum (map f l) + Qsum (map g l))%Q.
Proof.
  induction l as [|x l IH]; [reflexivity|].
  rewrite !map_cons, !Qsum_cons, IH. lra.
Qed.

Lemma all_dates_NoDup (pts : list Position.t) (bal : list Deal.t) :
  NoDup (all_dates pts bal).
Proof.
  unfold all_dates, sort_asc. rewrite merge_sort_Permutation. apply NoDup_unique.
Qed.

(** X6. The final equity that [analyze_trades_by_day] reports is the initial
    10000 plus all balance records plus the total profit (with commission and
    swap) of all closed positions: nothing is counted twice or left out by
    the day-by-day accumulation. *)
Theorem final_equity_is_total
    (position_times : list Position.t) (balance_df : list Deal.t) :
  ((equity_summary position_times balance_df).1.1
   == 10000 + Qsum (map Deal.profit balance_df)
      + Qsum (map Position.total_profit position_times))%Q.
Proof.
  unfold equity_summary, drawdown_states. simpl.
  set (sorted := sort_values_close_time position_times).
  set (dates := all_dates sorted balance_df).
  rewrite equity_run_final, Qsum_map_plus.
  assert (Qsum (map (λ d, daily_balance_change balance_df d) dates)
          == Qsum (map Deal.profit balance_df))%Q as ->.
  { rewrite (Qsum_map_ext _ _ _ (λ d _, daily_balance_change_sum balance_df d)).
    apply (Qsum_groups balance_date Deal.profit); [apply all_dates_NoDup|].
    intros x Hx. apply elem_of_all_dates. right. by exists x. }
  assert (Qsum (map (λ d, daily_trading_profit sorted d) dates)
          == Qsum (map Position.total_profit position_times))%Q as ->.
  { rewrite (Qsum_map_ext _ _ _ (λ d _, daily_trading_profit_sum sorted d)).
    rewrite (Qsum_groups Position.date Position.total_profit);
      [|apply all_dates_NoDup|].
    - apply Qsum_map_Permutation. apply stable_sort_Permutation.
    - intros p Hp. apply elem_of_all_dates. left. by exists p. }
  change (Equity.current_equity equity_init) with 10000%Q. lra.
Qed.

(** ** The drawdown while the equity stays positive *)

(** One day: a positive baseline and a maximum drawdown in [0, 100] are
    kept when the equity is positive before and after the day's balance
    movement. *)
Lemma equity_update_positive (st : Equity.t) (dbc dtp m x : Q) :
  Equity.max_equity st = Fin m → (0 < m)%Q →
  Equity.max_drawdown st = Fin x → (0 <= x <= 100)%Q →
  let st' := equity_update st dbc dtp in
  (0 < Equity.current_equity st')%Q →
  (0 < Equity.current_equity st' - dbc)%Q →
  ∃ m' d x',
    Equity.max_equity st' = Fin m' ∧ (0 < m')%Q
    ∧ Equity.drawdown st' = Fin d ∧ (d <= 100)%Q
    ∧ Equity.max_drawdown st' = Fin x' ∧ (0 <= x' <= 100)%Q ∧ (x <= x')%Q.
Proof.
  intros Hmax Hm Hmdd Hx st' Hcur Hpre. subst st'.
  unfold equity_update in *. simpl in *.
  set (cur := (Equity.current_equity st + (dbc + dtp))%Q) in *.
  rewrite Hmax, Hmdd.
  assert (∃ m', update_max_equity (Fin m) cur dbc = Fin m' ∧ (0 < m')%Q)
    as (m' & -> & Hm').
  { unfold update_max_equity, py_max.
    destruct (Qgeb dbc 0).
    - simpl. destruct (Qgtb (cur - dbc) m); eexists; split; done.
    - rewrite np_div_pos, np_mul_pos_l by done. simpl.
      destruct (Qgtb cur _); eexists; (split; [reflexivity|]); [done|].
      assert (0 < cur / (cur - dbc))%Q by (apply Qlt_shift_div_l; lra).
      by apply Qmult_lt_0_compat. }
  unfold drawdown_of, np_sub.
  rewrite np_div_pos by done. rewrite np_mul_pos_r by reflexivity.
  assert ((m' - cur) / m' <= 1)%Q as Hd by (apply Qle_shift_div_r; lra).
  unfold py_max, np_gtb.
  destruct (Qgtb _ x) eqn:G.
  - apply Qgtb_true in G. eexists _, _, _. repeat split; try reflexivity; lra.
  - apply Qgtb_false in G. eexists _, _, _. repeat split; try reflexivity; lra.
Qed.

Lemma equity_run_positive (pts : list Position.t) (bal : list Deal.t)
    (st : Equity.t) (dates : list Z) (m x : Q) :
  Equity.max_equity st = Fin m → (0 < m)%Q →
  Equity.max_drawdown st = Fin x → (0 <= x <= 100)%Q →
  Forall2 (λ st' date,
             0 < Equity.current_equity st'
             ∧ 0 < Equity.current_equity st' - daily_balance_change bal date)%Q
          (equity_run pts bal st dates) dates →
  Forall (λ st', ∃ m' d x',
            Equity.max_equity st' = Fin m' ∧ (0 < m')%Q
            ∧ Equity.drawdown st' = Fin d ∧ (d <= 100)%Q
            ∧ Equity.max_drawdown st' = Fin x' ∧ (0 <= x' <= 100)%Q)
         (equity_run pts bal st dates).
Proof.
  revert st m x. induction dates as [|date dates IH]; intros st m x Hmax Hm Hmdd Hx Hpos.
  - constructor.
  - change (equity_run pts bal st (date :: dates))
      with (equity_step pts bal st date
            :: equity_run pts bal (equity_step pts bal st date) dates) in *.
    apply Forall2_cons in Hpos as [[Hcur Hpre] Hpos].
    destruct (equity_update_positive st _ _ m x Hmax Hm Hmdd Hx Hcur Hpre)
      as (m' & d & x' & Hmax' & Hm' & Hd & Hd100 & Hmdd' & Hx' & _).
    constructor.
    + by exists m', d, x'.
    + by apply (IH _ m' x').
Qed.

(** X7. If on every day the equity is positive both after the day and
    before the day's balance movement, the recurrence never meets a zero
    divisor: on every day the baseline is a positive number, the drawdown is
    a number that is at most 100 and the running maximum drawdown is a number
    between 0 and 100. *)
Theorem drawdown_finite_while_equity_positive
    (position_times : list Position.t) (balance_df : list Deal.t) :
  Forall2 (λ st date,
             0 < Equity.current_equity st
             ∧ 0 < Equity.current_equity st - daily_balance_change balance_df date)%Q
          (drawdown_states position_times balance_df)
          (all_dates (sort_values_close_time position_times) balance_df) →
  Forall (λ st, ∃ m d x,
            Equity.max_equity st = Fin m ∧ (0 < m)%Q
            ∧ Equity.drawdown st = Fin d ∧ (d <= 100)%Q
            ∧ Equity.max_drawdown st = Fin x ∧ (0 <= x <= 100)%Q)
         (drawdown_states position_times balance_df).
Proof.
  intros Hpos. unfold drawdown_states in *.
  by apply (equity_run_positive _ _ equity_init _ initial_equity 0).
Qed.

Lemma drawdown_finite_while_equity_positive_witness :
  Forall (λ st, ∃ m d x,
            Equity.max_equity st = Fin m ∧ (0 < m)%Q
            ∧ Equity.drawdown st = Fin d ∧ (d <= 100)%Q
            ∧ Equity.max_drawdown st = Fin x ∧ (0 <= x <= 100)%Q)
         (drawdown_states (positions_of scenario_deposit) (balance_of scenario_deposit)).
Proof.
  apply drawdown_finite_while_equity_positive.
  repeat constructor; vm_compute; reflexivity.
Defined.

(** ** The running maximum drawdown *)

Lemma py_max_nonneg (a b : npfloat) :
  (a = PInf ∨ ∃ x, a = Fin x ∧ (0 <= x)%Q) →
  (py_max a b = PInf ∨ ∃ x, py_max a b = Fin x ∧ (0 <= x)%Q).
Proof.
  unfold py_max. intros [->|(x & -> & Hx)].
  - destruct b; simpl; by left.
  - destruct b as [y| | | |]; simpl.
    + destruct (Qgtb y x) eqn:G; right.
      * apply Qgtb_true in G. exists y. split; [done|lra].
      * by exists x.
    + assert (Qgtb 0 x = false) as -> by (by apply Qgtb_false).
      right. by exists x.
    + by left.
    + right. by exists x.
    + right. by exists x.
Qed.

Lemma equity_run_max_drawdown (pts : list Position.t) (bal : list Deal.t)
    (st : Equity.t) (dates : list Z) :
  (Equity.max_drawdown st = PInf ∨ ∃ x, Equity.max_drawdown st = Fin x ∧ (0 <= x)%Q) →
  Forall (λ st', Equity.max_drawdown st' = PInf
                 ∨ ∃ x, Equity.max_drawdown st' = Fin x ∧ (0 <= x)%Q)
         (equity_run pts bal st dates).
Proof.
  revert st. induction dates as [|date dates IH]; intros st Hst; [constructor|].
  assert (Equity.max_drawdown (equity_step pts bal st date) = PInf
          ∨ ∃ x, Equity.max_drawdown (equity_step pts bal st date) = Fin x
                 ∧ (0 <= x)%Q) as Hstep.
  { unfold equity_step, equity_update. simpl. by apply py_max_nonneg. }
  constructor; [done|]. by apply IH.
Qed.

(** X8. Whatever the feed, the running maximum drawdown is never nan and
    never negative on any day, and neither is the maximum drawdown that is
    reported at the end: it is +inf or a number that is at least 0, even when
    a day's own drawdown is negative or nan. *)
Theorem max_drawdown_never_negative
    (position_times : list Position.t) (balance_df : list Deal.t) :
  Forall (λ st, Equity.max_drawdown st = PInf
                ∨ ∃ x, Equity.max_drawdown st = Fin x ∧ (0 <= x)%Q)
         (drawdown_states position_times balance_df)
  ∧ ((equity_summary position_times balance_df).2 = PInf
     ∨ ∃ x, (equity_summary position_times balance_df).2 = Fin x ∧ (0 <= x)%Q).
Proof.
  assert (Equity.max_drawdown equity_init = PInf
          ∨ ∃ x, Equity.max_drawdown equity_init = Fin x ∧ (0 <= x)%Q) as Hinit.
  { right. exists 0%Q. split; [done|lra]. }
  pose proof (equity_run_max_drawdown
                (sort_values_close_time position_times) balance_df equity_init
                (all_dates (sort_values_close_time position_times) balance_df) Hinit)
    as Hall.
  split; [exact Hall|].
  unfold equity_summary. simpl. fold (drawdown_states position_times balance_df) in Hall.
  destruct (drawdown_states position_times balance_df) as [|st0 sts] eqn:E; [done|].
  rewrite last_cons_default.
  rewrite Forall_forall in Hall. apply Hall.
  destruct sts as [|st1 sts'] using rev_ind; [left|].
  rewrite List.last_last. apply elem_of_cons. right. apply elem_of_app. right. left.
Qed.

(** ** [analyze_slippage] *)

#[global] Instance slippage_ge_trans : Transitive slippage_ge.
Proof.
  intros a b c. unfold slippage_ge. rewrite !Qle_bool_iff. intros. lra.
Qed.

#[global] Instance slippage_ge_total : Total slippage_ge.
Proof.
  intros a b. unfold slippage_ge. rewrite !Qle_bool_iff.
  destruct (Qlt_le_dec (Position.slippage a) (Position.slippage b)); [right|left]; lra.
Qed.

Lemma analyze_slippage_Permutation (position_times : list Position.t) (date : Z) :
  analyze_slippage position_times date
  ≡ₚ filter (λ p, Qgtb (Position.slippage p) 0 = true)
       (filter (λ p, Position.date p = date) position_times).
Proof.
  unfold analyze_slippage. destruct (decide _) as [Hlen|Hlen].
  - apply nil_length_inv in Hlen. by rewrite Hlen.
  - apply stable_sort_Permutation.
Qed.

Lemma StronglySorted_weaken {A} (R S : relation A) (l : list A) :
  (∀ a b, R a b → S a b) → StronglySorted R l → StronglySorted S l.
Proof.
  intros HRS. induction 1 as [|x l _ IH Hall]; constructor; [done|].
  eapply Forall_impl; [exact Hall|]. intros y. apply HRS.
Qed.

(** X11. The slippage report of a day lists exactly the day's positions
    with a positive slippage, each as often as it occurs among the positions,
    ordered by slippage with the largest first. *)
Theorem analyze_slippage_sorted (position_times : list Position.t) (date : Z) :
  let report := analyze_slippage position_times date in
  (∀ p, p ∈ report ↔
        p ∈ position_times ∧ Position.date p = date ∧ (0 < Position.slippage p)%Q)
  ∧ report ≡ₚ filter (λ p, Qgtb (Position.slippage p) 0 = true)
                (filter (λ p, Position.date p = date) position_times)
  ∧ StronglySorted (λ a b, Position.slippage b <= Position.slippage a)%Q report.
Proof.
  intros report. split; [|split].
  - intros p. unfold report. rewrite analyze_slippage_Permutation.
    rewrite !list_elem_of_filter, Qgtb_true. tauto.
  - apply analyze_slippage_Permutation.
  - unfold report, analyze_slippage. destruct (decide _); [constructor|].
    eapply (StronglySorted_weaken slippage_ge);
      [|apply (StronglySorted_stable_sort slippage_ge)].
    intros a b. unfold slippage_ge. by rewrite Qle_bool_iff.
Qed.

(** X12. A position closed at market never appears in a slippage report:
    every reported position was closed against a stop-loss or a take-profit
    and carries that reference price. *)
Theorem slippage_report_has_reference (df : list Trade.t) (date : Z) (p : Position.t) :
  p ∈ analyze_slippage (calculate_position_times df) date →
  Position.close_type p ≠ by_market
  ∧ ∃ ref, Position.sl_tp_price p = Some ref
           ∧ Position.slippage p = Qabs (Position.close_price p - ref).
Proof.
  rewrite analyze_slippage_Permutation, !list_elem_of_filter, Qgtb_true.
  intros (Hpos & _ & Hp).
  apply elem_of_calculate_position_times in Hp as (pid & _ & Hrow).
  apply position_row_close_trade in Hrow as (ct & _ & _ & _ & Hprice & Hk).
  unfold classify_close in Hk. rewrite <- Hprice in Hk.
  destruct (notna_nonzero (Trade.sl ct)) as [s|].
  - injection Hk as Href Hkind Hslip. split; [congruence|]. by exists s.
  - destruct (notna_nonzero (Trade.tp ct)) as [t|].
    + injection Hk as Href Hkind Hslip. split; [congruence|]. by exists t.
    + injection Hk as _ _ Hslip. rewrite Hslip in Hpos. lra.
Qed.

Lemma slippage_report_has_reference_witness :
  length (analyze_slippage (calculate_position_times scenario_stop_loss_position) 0) = 1
  ∧ Forall (λ p, Position.close_type p ≠ by_market)
           (analyze_slippage (calculate_position_times scenario_stop_loss_position) 0).
Proof.
  split; [reflexivity|].
  apply Forall_forall. intros p Hp.
  apply (slippage_report_has_reference scenario_stop_loss_position 0 p Hp).
Defined.

(** ** The equity rows written to a day's workbook *)

Lemma filter_le_nil {A} (f : A → Z) (d : Z) (l : list A) :
  Forall (λ y, d < y)%Z (map f l) → filter (λ r, (f r ≤ d)%Z) l = [].
Proof.
  intros Hall. destruct (filter _ l) as [|y rest] eqn:E; [done|].
  assert (y ∈ filter (λ r, (f r ≤ d)%Z) l) as Hy by (rewrite E; left).
  apply list_elem_of_filter in Hy as [Hy Hin].
  rewrite Forall_forall in Hall.
  assert (f y ∈ map f l) as Hfy by (apply list_elem_of_fmap; by exists y).
  apply Hall in Hfy. lia.
Qed.

Lemma filter_le_prefix {A} (f : A → Z) (d : Z) (l : list A) :
  StronglySorted Z.lt (map f l) →
  filter (λ r, (f r ≤ d)%Z) l `prefix_of` l.
Proof.
  induction l as [|x l IH]; intros Hs; [done|].
  simpl in Hs. apply StronglySorted_inv in Hs as [Hs Hall].
  rewrite filter_cons. destruct (decide (f x ≤ d)%Z) as [Hx|Hx].
  - apply prefix_cons. by apply IH.
  - rewrite filter_le_nil; [apply prefix_nil|].
    eapply Forall_impl; [exact Hall|]. intros y Hy. simpl in Hy. lia.
Qed.

Lemma filter_le_last {A} (f : A → Z) (d : Z) (l : list A) :
  StronglySorted Z.lt (map f l) → d ∈ map f l →
  ∃ r, last (filter (λ r, (f r ≤ d)%Z) l) = Some r ∧ f r = d.
Proof.
  induction l as [|x l IH]; intros Hs Hd; [inversion Hd|].
  simpl in Hs, Hd. apply StronglySorted_inv in Hs as [Hs Hall].
  rewrite filter_cons. apply elem_of_cons in Hd as [Hd|Hd].
  - rewrite decide_True by lia.
    rewrite filter_le_nil; [by exists x|].
    eapply Forall_impl; [exact Hall|]. intros y Hy. simpl in Hy. lia.
  - rewrite Forall_forall in Hall. pose proof (Hall _ Hd) as Hlt.
    rewrite decide_True by lia.
    destruct (IH Hs Hd) as (r & Hr & Hfr). exists r. split; [|done].
    destruct (filter _ l) as [|y rest]; [done|]. done.
Qed.

(** X13. The equity rows written to a day's workbook are an initial segment
    of the equity rows: the rows of all days up to that day and of no later
    day; and on a day that has a closed position the segment ends with that
    day's own row. *)
Theorem daily_equity_prefix
    (position_times : list Position.t) (balance_df : list Deal.t) (date : Z) :
  let equity := equity_df position_times balance_df in
  daily_equity equity date `prefix_of` equity
  ∧ (∀ r, r ∈ daily_equity equity date ↔ r ∈ equity ∧ (EquityRow.date r ≤ date)%Z)
  ∧ ((∃ p, p ∈ position_times ∧ Position.date p = date) →
     ∃ r, last (daily_equity equity date) = Some r ∧ EquityRow.date r = date).
Proof.
  intros equity.
  assert (StronglySorted Z.lt (map EquityRow.date equity)) as Hsorted.
  { unfold equity, equity_df. rewrite equity_rows_dates. apply all_dates_sorted. }
  split; [by apply filter_le_prefix|]. split.
  - intros r. unfold daily_equity. rewrite list_elem_of_filter. tauto.
  - intros (p & Hp & Hdate). apply filter_le_last; [done|].
    unfold equity, equity_df. rewrite equity_rows_dates.
    apply elem_of_all_dates. left. exists p.
    by rewrite elem_of_sort_values_close_time.
Qed.

Lemma daily_equity_prefix_witness :
  ∃ r, last (daily_equity (equity_df (positions_of scenario_deposit)
                             (balance_of scenario_deposit)) 2) = Some r
       ∧ EquityRow.date r = 2%Z.
Proof.
  apply (daily_equity_prefix (positions_of scenario_deposit)
           (balance_of scenario_deposit) 2).
  eexists. split; [left|reflexivity].
Defined.

(** ** [groupby] *)

Section groupby.
Context {K : Type} `{EqDecision K} (le : relation K) `{RelDecision K K le}.
Context (key : Position.t → K) (rows : list Position.t).

Lemma groupby_keys :
  map fst (groupby le key rows) = merge_sort le (unique (map key rows)).
Proof.
  unfold groupby.
  induction (merge_sort le (unique (map key rows))) as [|k ks IH]; [done|].
  simpl. by rewrite IH.
Qed.

Lemma groupby_snd :
  map snd (groupby le key rows)
  = map (λ k, filter (λ p, key p = k) rows) (merge_sort le (unique (map key rows))).
Proof.
  unfold groupby.
  induction (merge_sort le (unique (map key rows))) as [|k ks IH]; [done|].
  simpl. by rewrite IH.
Qed.

Lemma groupby_keys_NoDup : NoDup (map fst (groupby le key rows)).
Proof. rewrite groupby_keys, merge_sort_Permutation. apply NoDup_unique. Qed.

Lemma elem_of_groupby_keys (k : K) :
  k ∈ map fst (groupby le key rows) ↔ ∃ p, p ∈ rows ∧ key p = k.
Proof.
  rewrite groupby_keys, merge_sort_Permutation, elem_of_unique, list_elem_of_fmap.
  split; [intros (p & -> & Hp)|intros (p & Hp & <-)]; by exists p.
Qed.

Lemma groupby_nonempty (k : K) (group : list Position.t) :
  (k, group) ∈ groupby le key rows → group ≠ [].
Proof.
  intros Hg. assert (k ∈ map fst (groupby le key rows)) as Hk.
  { apply list_elem_of_fmap. by exists (k, group). }
  apply elem_of_groupby_keys in Hk as (p & Hp & Hkey).
  unfold groupby in Hg. apply list_elem_of_fmap in Hg as (k' & [= -> ->] & _).
  intros Hnil. assert (p ∈ filter (λ p, key p = k') rows) as Hin
    by (by apply list_elem_of_filter).
  rewrite Hnil in Hin. inversion Hin.
Qed.

Lemma groupby_Permutation : concat (map snd (groupby le key rows)) ≡ₚ rows.
Proof.
  rewrite groupby_snd. apply groups_Permutation.
  - rewrite merge_sort_Permutation. apply NoDup_unique.
  - intros p Hp. rewrite merge_sort_Permutation, elem_of_unique.
    apply list_elem_of_fmap. by exists p.
Qed.

Lemma Qsum_groupby (f : Position.t → Q) :
  (Qsum (map (λ g, Qsum (map f g.2)) (groupby le key rows)) == Qsum (map f rows))%Q.
Proof.
  rewrite <- (Qsum_map_Permutation f _ _ groupby_Permutation).
  induction (groupby le key rows) as [|g gs IH]; [reflexivity|].
  rewrite !map_cons, concat_cons, map_app, Qsum_app, Qsum_cons, IH. reflexivity.
Qed.

Lemma length_groupby :
  sum_list (map (λ g, length g.2) (groupby le key rows)) = length rows.
Proof.
  rewrite <- (Permutation_length groupby_Permutation).
  induction (groupby le key rows) as [|g gs IH]; [done|].
  rewrite !map_cons, concat_cons, length_app. simpl. by rewrite IH.
Qed.
End groupby.

Lemma Forall2_map_eq {A B C} (F : A → C) (G : B → C) (l : list A) (k : list B) :
  Forall2 (λ x y, G y = F x) l k → map G k = map F l.
Proof. induction 1 as [|x y l k Hxy _ IH]; [done|]. simpl. by rewrite Hxy, IH. Qed.

Lemma mapM_result_inv {A B} (f : A → result B) (l : list A) (k : list B) :
  mapM f l = Ok k → Forall2 (λ x y, f x = Ok y) l k.
Proof.
  revert k. induction l as [|x l IH]; intros k.
  - intros [= <-]. constructor.
  - simpl. destruct (f x) as [y|e] eqn:Hy; [|done]. simpl.
    destruct (mapM f l) as [k'|e]; [|done]. simpl.
    intros [= <-]. constructor; [done|by apply IH].
Qed.

(** ** The per-symbol sheet *)

Lemma symbol_row_win_rate (symbol : string) (rows : list Position.t) :
  rows ≠ [] →
  ∃ w, SymbolRow.win_rate (symbol_row symbol rows) = Fin w
       ∧ (w == inject_Z (Z.of_nat (SymbolRow.wins (symbol_row symbol rows)))
               / inject_Z (Z.of_nat (SymbolRow.count (symbol_row symbol rows))) * 100)%Q
       ∧ (0 <= w <= 100)%Q.
Proof.
  intros Hne. unfold symbol_row.
  cbn [SymbolRow.win_rate SymbolRow.wins SymbolRow.count].
  assert (0 < inject_Z (Z.of_nat (length rows)))%Q as Hm
    by (by apply inject_Z_length_pos).
  rewrite np_div_pos by done. rewrite np_mul_pos_r by reflexivity.
  eexists. split; [reflexivity|]. split; [reflexivity|].
  assert (inject_Z (Z.of_nat (length (profit_trades rows)))
          <= inject_Z (Z.of_nat (length rows)))%Q as Hle.
  { rewrite <- Zle_Qle. apply inj_le. unfold profit_trades. apply length_filter. }
  assert (0 <= inject_Z (Z.of_nat (length (profit_trades rows))))%Q as Hn.
  { change 0%Q with (inject_Z 0). rewrite <- Zle_Qle. lia. }
  set (n := inject_Z (Z.of_nat (length (profit_trades rows)))) in *.
  set (m := inject_Z (Z.of_nat (length rows))) in *.
  assert (0 <= n / m)%Q by (apply Qle_shift_div_l; lra).
  assert (n / m <= 1)%Q by (apply Qle_shift_div_r; lra).
  lra.
Qed.

(** X14. In the per-symbol sheet of a day there is one row per symbol traded
    that day; the division count-of-profitable / count that gives the win
    rate is not guarded but never meets a zero count, so every win rate is a
    number between 0 and 100; and the rows add up to the day: their counts to
    the number of the day's positions, their total profits to the day's total
    profit, their volumes to the day's volume. *)
Theorem symbol_summary_adds_up (group : list Position.t) :
  let sheet := symbol_summary group in
  NoDup (map SymbolRow.symbol sheet)
  ∧ (∀ sym, sym ∈ map SymbolRow.symbol sheet ↔
            ∃ p, p ∈ group ∧ Position.symbol p = sym)
  ∧ Forall (λ row, 0 < SymbolRow.count row
                   ∧ SymbolRow.wins row ≤ SymbolRow.count row
                   ∧ ∃ w, SymbolRow.win_rate row = Fin w
                          ∧ (w == inject_Z (Z.of_nat (SymbolRow.wins row))
                                  / inject_Z (Z.of_nat (SymbolRow.count row)) * 100)%Q
                          ∧ (0 <= w <= 100)%Q) sheet
  ∧ sum_list (map SymbolRow.count sheet) = length group
  ∧ (Qsum (map SymbolRow.total_profit sheet)
     == Qsum (map Position.total_profit group))%Q
  ∧ (Qsum (map SymbolRow.volume sheet) == Qsum (map Position.volume group))%Q.
Proof.
  intros sheet. unfold sheet, symbol_summary.
  set (groups := groupby symbol_le Position.symbol group).
  assert (map SymbolRow.symbol
            (map (λ g : string * list Position.t, symbol_row g.1 g.2) groups)
          = map fst groups) as Hsym.
  { induction groups as [|g gs IH]; [done|]. simpl. by rewrite IH. }
  rewrite Hsym.
  split; [apply groupby_keys_NoDup|].
  split; [intros sym; apply elem_of_groupby_keys|].
  split; [|split; [|split]].
  - apply Forall_forall. intros row Hrow.
    apply list_elem_of_fmap in Hrow as ([sym rows] & -> & Hg).
    pose proof (groupby_nonempty _ _ _ _ _ Hg) as Hne. simpl.
    split; [destruct rows; [done|simpl; lia]|].
    split; [unfold profit_trades; apply length_filter|].
    by apply (symbol_row_win_rate sym rows).
  - rewrite map_map. exact (length_groupby symbol_le Position.symbol group).
  - rewrite map_map.
    exact (Qsum_groupby symbol_le Position.symbol group Position.total_profit).
  - rewrite map_map.
    exact (Qsum_groupby symbol_le Position.symbol group Position.volume).
Qed.

(** ** [analyze_trades_by_day] and [save_daily_trades] as a whole *)

Lemma symbol_stats_Ok (key : Z * string) (group : list Position.t) :
  ∃ s, symbol_stats key group = Ok s
       ∧ (Stats.date s, Stats.symbol s) = key
       ∧ Stats.total_profit s = Qsum (map Position.total_profit group)
       ∧ Stats.total_volume s = Qsum (map Position.volume group)
       ∧ Stats.buy_count s + Stats.sell_count s ≤ length group.
Proof.
  destruct (win_rate_of_spec group) as (w & Hw & _).
  unfold symbol_stats. rewrite Hw. simpl.
  eexists. split; [reflexivity|]. simpl. split; [by destruct key|].
  split; [done|]. split; [done|].
  clear Hw. unfold count_type. induction group as [|p group IH]; [done|].
  rewrite !filter_cons. unfold DEAL_TYPE_BUY, DEAL_TYPE_SELL in *.
  destruct (decide (Position.type p = 0%Z)), (decide (Position.type p = 1%Z));
    simpl; lia.
Qed.

Lemma day_summary_Ok (date : Z) (group : list Position.t) :
  ∃ s, day_summary date group = Ok s
       ∧ Summary.date s = date
       ∧ Summary.total_trades s = length group
       ∧ Summary.profit_count s + Summary.loss_count s = Summary.total_trades s
       ∧ Summary.total_profit s = Qsum (map Position.total_profit group).
Proof.
  destruct (win_rate_of_spec group) as (w & Hw & _).
  unfold day_summary. rewrite Hw. simpl.
  eexists. split; [reflexivity|]. simpl. repeat split.
  clear Hw. unfold profit_trades, loss_trades.
  induction group as [|p group IH]; [done|].
  rewrite !filter_cons.
  destruct (decide (Position.is_profit p = true)), (decide (Position.is_profit p ≠ true));
    simpl; try lia; contradiction.
Qed.

(** X15. Whenever [analyze_trades_by_day] returns: without a closed position
    it has printed no equity statistics, saved nothing and returns the empty
    summary; otherwise its summary has one row per (date, symbol) that occurs
    among the closed positions, and the rows add up: their total profits to
    the total profit of all closed positions, their volumes to the total
    volume. *)
Theorem analyze_trades_by_day_summary
    (df : list Trade.t) (balance_df : list Deal.t) (a : Analysis.t) :
  let position_times := calculate_position_times df in
  analyze_trades_by_day df balance_df = Ok a →
  (position_times = [] →
     Analysis.equity_stats a = None ∧ Analysis.saved a = ([], [])
     ∧ Analysis.daily_summary a = [])
  ∧ (position_times ≠ [] →
       Analysis.equity_stats a = Some (equity_summary position_times balance_df))
  ∧ NoDup (map (λ s, (Stats.date s, Stats.symbol s)) (Analysis.daily_summary a))
  ∧ (∀ key, key ∈ map (λ s, (Stats.date s, Stats.symbol s)) (Analysis.daily_summary a)
            ↔ ∃ p, p ∈ position_times
                   ∧ (Position.date p, Position.symbol p) = key)
  ∧ (Qsum (map Stats.total_profit (Analysis.daily_summary a))
     == Qsum (map Position.total_profit position_times))%Q
  ∧ (Qsum (map Stats.total_volume (Analysis.daily_summary a))
     == Qsum (map Position.volume position_times))%Q.
Proof.
  intros position_times. unfold analyze_trades_by_day. fold position_times.
  destruct (decide (length position_times = 0)) as [Hlen|Hlen].
  - apply nil_length_inv in Hlen. intros [= <-]. simpl.
    rewrite Hlen. repeat split; try done; try constructor.
    + intros Hk. inversion Hk.
    + intros (p & Hp & _). inversion Hp.
  - destruct (save_daily_trades position_times balance_df) as [saved|e]; [|done].
    simpl.
    destruct (mapM _ (groupby_date_symbol position_times)) as [stats|e] eqn:Hstats;
      [|done].
    apply mapM_result_inv in Hstats as HF.
    simpl. intros [= <-]. simpl.
    assert (map (λ s, (Stats.date s, Stats.symbol s)) stats
            = map fst (groupby_date_symbol position_times)) as Hkeys.
    { apply Forall2_map_eq. eapply Forall2_impl; [exact HF|].
      intros g s Hs. destruct (symbol_stats_Ok g.1 g.2) as (s' & Hs' & Hk & _).
      rewrite Hs in Hs'. by injection Hs' as <-. }
    assert (map Stats.total_profit stats
            = map (λ g, Qsum (map Position.total_profit g.2))
                  (groupby_date_symbol position_times)) as Hprofit.
    { apply Forall2_map_eq. eapply Forall2_impl; [exact HF|].
      intros g s Hs. destruct (symbol_stats_Ok g.1 g.2) as (s' & Hs' & _ & Hp & _).
      rewrite Hs in Hs'. by injection Hs' as <-. }
    assert (map Stats.total_volume stats
            = map (λ g, Qsum (map Position.volume g.2))
                  (groupby_date_symbol position_times)) as Hvolume.
    { apply Forall2_map_eq. eapply Forall2_impl; [exact HF|].
      intros g s Hs. destruct (symbol_stats_Ok g.1 g.2) as (s' & Hs' & _ & _ & Hv & _).
      rewrite Hs in Hs'. by injection Hs' as <-. }
    rewrite Hkeys, Hprofit, Hvolume.
    split; [intros Hnil; by rewrite Hnil in Hlen|]. split; [done|].
    split; [apply groupby_keys_NoDup|].
    split; [intros key; apply elem_of_groupby_keys|].
    split; apply Qsum_groupby.
Qed.

Lemma analyze_trades_by_day_summary_witness :
  ∃ a, analyze_trades_by_day scenario_two_deals [] = Ok a
       ∧ Analysis.equity_stats a
         = Some (equity_summary (calculate_position_times scenario_two_deals) [])
       ∧ length (Analysis.daily_summary a) = 1.
Proof.
  edestruct (analyze_trades_by_day_summary scenario_two_deals [])
    as (_ & Hstats & _).
  - vm_compute. reflexivity.
  - eexists. split; [vm_compute; reflexivity|].
    split; [by apply Hstats|reflexivity].
Defined.

(** X16. Whenever [save_daily_trades] returns, what it has computed is the
    equity rows and one summary per date with a closed position, dates
    ascending; in each summary the profitable and the losing trades add up to
    the number of trades, which is positive, and over all summaries the
    numbers of trades add up to the number of closed positions and the total
    profits to their total profit. *)
Theorem save_daily_trades_summaries
    (position_times : list Position.t) (balance_df : list Deal.t)
    (equity : list EquityRow.t) (summaries : list Summary.t) :
  save_daily_trades position_times balance_df = Ok (equity, summaries) →
  equity = equity_df position_times balance_df
  ∧ StronglySorted Z.lt (map Summary.date summaries)
  ∧ (∀ d, d ∈ map Summary.date summaries ↔
          ∃ p, p ∈ position_times ∧ Position.date p = d)
  ∧ Forall (λ s, 0 < Summary.total_trades s
                 ∧ Summary.profit_count s + Summary.loss_count s
                   = Summary.total_trades s) summaries
  ∧ sum_list (map Summary.total_trades summaries) = length position_times
  ∧ (Qsum (map Summary.total_profit summaries)
     == Qsum (map Position.total_profit position_times))%Q.
Proof.
  unfold save_daily_trades.
  destruct (mapM _ (groupby_date position_times)) as [summaries'|e] eqn:Hsum; [|done].
  apply mapM_result_inv in Hsum as HF.
  simpl. intros [= <- <-]. split; [done|].
  assert (map Summary.date summaries' = map fst (groupby_date position_times)) as Hdates.
  { apply Forall2_map_eq. eapply Forall2_impl; [exact HF|].
    intros g s Hs. destruct (day_summary_Ok g.1 g.2) as (s' & Hs' & Hd & _).
    rewrite Hs in Hs'. by injection Hs' as <-. }
  assert (map Summary.total_trades summaries'
          = map (λ g, length g.2) (groupby_date position_times)) as Htrades.
  { apply Forall2_map_eq. eapply Forall2_impl; [exact HF|].
    intros g s Hs. destruct (day_summary_Ok g.1 g.2) as (s' & Hs' & _ & Hn & _).
    rewrite Hs in Hs'. by injection Hs' as <-. }
  assert (map Summary.total_profit summaries'
          = map (λ g, Qsum (map Position.total_profit g.2))
                (groupby_date position_times)) as Hprofit.
  { apply Forall2_map_eq. eapply Forall2_impl; [exact HF|].
    intros g s Hs. destruct (day_summary_Ok g.1 g.2) as (s' & Hs' & _ & _ & _ & Hp).
    rewrite Hs in Hs'. by injection Hs' as <-. }
  rewrite Hdates, Htrades, Hprofit.
  split; [|split; [|split; [|split]]].
  - unfold groupby_date. rewrite groupby_keys.
    apply StronglySorted_lt_of_le_NoDup.
    + apply StronglySorted_merge_sort; apply _.
    + rewrite merge_sort_Permutation. apply NoDup_unique.
  - intros d. apply elem_of_groupby_keys.
  - apply Forall_forall. intros s Hs.
    apply list_elem_of_lookup in Hs as (i & Hi).
    destruct (Forall2_lookup_r _ _ _ i s HF Hi) as (g & Hg & Hgs).
    destruct (day_summary_Ok g.1 g.2) as (s' & Hs' & _ & Hn & Hpl & _).
    rewrite Hgs in Hs'. injection Hs' as <-.
    split; [|done]. rewrite Hn.
    apply list_elem_of_lookup_2 in Hg. destruct g as [d rows].
    apply groupby_nonempty in Hg. destruct rows; [done|simpl; lia].
  - apply length_groupby.
  - apply Qsum_groupby.
Qed.

Lemma save_daily_trades_summaries_witness :
  ∃ equity summaries,
    save_daily_trades (calculate_position_times scenario_two_deals) []
      = Ok (equity, summaries)
    ∧ sum_list (map Summary.total_trades summaries) = 1.
Proof.
  edestruct (save_daily_trades_summaries (calculate_position_times scenario_two_deals) [])
    as (_ & _ & _ & _ & Hn & _).
  - vm_compute. reflexivity.
  - eexists _, _. split; [vm_compute; reflexivity|]. rewrite Hn. reflexivity.
Defined.

(** ** The entry points *)

(** X18. [run_analysis] changes the entry of its own task and no other, and
    leaves it finished and stamped with the clock reading, whatever the
    analysis does: the entry is completed or failed, never left running. It
    is completed only if the terminal was initialized and
    [get_trades_history] returned a table; a failed entry carries an error
    text, which is that of the connection when the terminal cannot be
    initialized. *)
Theorem run_analysis_finishes_task
    (tasks : gmap string Task.t) (task_id now : string) (feed : Feed.t) :
  let tasks' := run_analysis tasks task_id now feed in
  let history := get_trades_history (Feed.deals feed) (Feed.account_history feed)
                   (Feed.orders feed) in
  (∀ other, other ≠ task_id → tasks' !! other = tasks !! other)
  ∧ ∃ task,
      tasks' !! task_id = Some task
      ∧ Task.completed_at task = Some now
      ∧ (Task.status task = "completed" ∨ Task.status task = "failed")
      ∧ (Task.status task = "completed" →
           Feed.initialize feed = true ∧ is_Some history ∧ Task.error task = None)
      ∧ (Task.status task = "failed" → is_Some (Task.error task))
      ∧ (Feed.initialize feed = false →
           task = task_failed "Failed to connect to MT5" now).
Proof.
  intros tasks' history. subst tasks'.
  unfold run_analysis, run_analysis_body, unpack_history. fold history.
  destruct (Feed.initialize feed); simpl.
  - destruct history as [[df balance_df]|]; simpl.
    + destruct (analyze_trades_by_day df balance_df) as [a|e]; simpl.
      * split; [intros other Hne; by rewrite lookup_insert_ne|].
        eexists. split; [apply lookup_insert_eq|]. simpl.
        split; [done|]. split; [by left|].
        split; [intros _; split; [done|split; [by eexists|done]]|].
        split; [done|done].
      * split; [intros other Hne; by rewrite lookup_insert_ne|].
        eexists. split; [apply lookup_insert_eq|]. simpl.
        split; [done|]. split; [by right|].
        split; [done|]. split; [intros _; by eexists|done].
    + split; [intros other Hne; by rewrite lookup_insert_ne|].
      eexists. split; [apply lookup_insert_eq|]. simpl.
      split; [done|]. split; [by right|].
      split; [done|]. split; [intros _; by eexists|done].
  - split; [intros other Hne; by rewrite lookup_insert_ne|].
    eexists. split; [apply lookup_insert_eq|]. simpl.
    split; [done|]. split; [by right|].
    split; [done|]. split; [intros _; by eexists|done].
Qed.

Lemma run_analysis_finishes_task_witness :
  run_analysis {[ "other" := task_completed "before" ]} "job" "now" scenario_empty
    !! "other" = Some (task_completed "before").
Proof.
  destruct (run_analysis_finishes_task {[ "other" := task_completed "before" ]}
              "job" "now" scenario_empty) as [Hframe _].
  rewrite Hframe by discriminate. reflexivity.
Defined.

(** ** The day range *)

(** X20. The range of a calendar day holds exactly the instants of that
    day, and the window asked of the terminal for [days_back] days holds
    exactly the instants of the days from [end_date - days_back] to
    [end_date], both included. *)
Theorem day_range_covers_day (date end_date days_back t : Z) :
  (((get_gmt_day_range date).1 ≤ t ≤ (get_gmt_day_range date).2)%Z
   ↔ (t / us_per_day = date)%Z)
  ∧ (((history_window end_date days_back).1 ≤ t
      ≤ (history_window end_date days_back).2)%Z
     ↔ (end_date - days_back ≤ t / us_per_day ≤ end_date)%Z).
Proof.
  unfold history_window, get_gmt_day_range, us_per_day. simpl.
  split; split; intros H; Z.div_mod_to_equations; lia.
Qed.
